(** * RenderBlocks: cube layout, cube colouring, face decoration and palette spawn

    A shallow embedding of
    - [src/components/blocks/NumberBlock.tsx]: [getCubePositions],
      [NINE_GRAY_COLORS], [getCubeColor], the [Cube] component and the
      per-cube props computed by [NumberBlock];
    - [src/components/ui/Mirror.tsx]: the drag handlers of [SpawnableBlock].

    JavaScript numbers that hold block values, cube indices and pixel sizes
    are integers here ([Z], array indices [nat]); on integers of that size
    [Math.floor(a / b)], [Math.ceil(a / b)] and [a % b] are exact.  The
    coordinates the palette computes with are binary64 floating-point numbers
    ([float]), with the rounding of the source's arithmetic; the positions a
    block's pointer handlers hand on are real numbers ([R]). *)

From Stdlib Require Import PrimFloat.
From Stdlib Require Import ZArith Lia Reals.
From stdpp Require Import base list list_numbers strings.

Local Open Scope Z_scope.

(** ** JavaScript values and operators used by the source *)

(** The result of an expression of TypeScript type [string] at run time: an
    array read out of range yields [undefined]. *)
Inductive jsval : Type :=
  | JUndefined
  | JStr (s : string).

Global Instance jsval_eq_dec : EqDecision jsval.
Proof. solve_decision. Defined.

(** JavaScript truthiness: [undefined] and the empty string are falsy. *)
Definition truthy (v : jsval) : bool :=
  match v with
  | JUndefined => false
  | JStr s => negb (String.eqb s "")
  end.

(** [a || b] *)
Definition js_or (a b : jsval) : jsval := if truthy a then a else b.

(** [arr[i]] for an integer [i]: [undefined] outside [0 .. length - 1]. *)
Definition js_index (arr : list string) (i : Z) : jsval :=
  if i <? 0 then JUndefined
  else match arr !! Z.to_nat i with
       | Some s => JStr s
       | None => JUndefined
       end.


(** [Math.floor(a / b)] on integers. *)
Definition Math_floor_div (a b : Z) : Z := a / b.

(** [Math.ceil(a / b)] on integers. *)
Definition Math_ceil_div (a b : Z) : Z := - ((- a) / b).

(** [a % b]: the sign follows the dividend. *)
Definition js_rem (a b : Z) : Z := Z.rem a b.

(** [for (let i = start; i < bound; i++) positions.push(body(i))], the pushes
    threaded through the accumulator; [fuel] bounds the number of tests of
    the loop condition. *)
Fixpoint for_push {A : Type} (fuel : nat) (i bound : Z) (body : Z → A)
    (positions : list A) : list A :=
  match fuel with
  | O => positions
  | S fuel' =>
      if i <? bound
      then for_push fuel' (i + 1) bound body (positions ++ [body i])
      else positions
  end.

(** The loop from [0], with as much fuel as it has iterations. *)
Definition for_range {A : Type} (bound : Z) (body : Z → A) : list A :=
  for_push (Z.to_nat bound) 0 bound body [].

(** [arr.reduce(callback, init)], the callback receiving the accumulator, the
    element and its index ([arr] itself is closed over by the caller). *)
Fixpoint reduce_from {A B : Type} (callback : B → A → nat → B) (idx : nat)
    (l : list A) (acc : B) : B :=
  match l with
  | [] => acc
  | a :: l' => reduce_from callback (S idx) l' (callback acc a idx)
  end.

Definition reduce {A B : Type} (callback : B → A → nat → B) (arr : list A)
    (init : B) : B :=
  reduce_from callback 0%nat arr init.

(** ** Data *)

(** [Position] of [src/types]: pixel offsets. *)
Record Position : Type := mkPosition { pos_x : Z; pos_y : Z }.

Global Instance Position_eq_dec : EqDecision Position.
Proof. solve_decision. Defined.

Global Instance Position_inhabited : Inhabited Position :=
  populate (mkPosition 0 0).

(** Gray gradient colors for 9 (lightest at bottom, darkest at top). *)
Definition NINE_GRAY_COLORS : list string :=
  [ "#D0D0D0"; "#D0D0D0"; "#D0D0D0";
    "#A0A0A0"; "#A0A0A0"; "#A0A0A0";
    "#606060"; "#606060"; "#606060" ]%string.

(** The [starEyes] prop of [Cube]: ['red' | 'blue' | false]. *)
Inductive StarEyes : Type := star_red | star_blue | star_false.

Inductive StarColor : Type := red | blue.

(** What [Cube] puts into its [cube-eyes] element. *)
Inductive Eye : Type :=
  | cube_eye
  | cube_eye_star (c : StarColor).

(** The props [NumberBlock] hands to one [Cube]. *)
Record CubeProps : Type := mkCubeProps {
  color : jsval;
  hasRedOutline : bool;
  hasFace : bool;
  eyeCount : Z;
  starEyes : StarEyes;
  style_left : Z;
  style_top : Z
}.

(** ** NumberBlock.tsx *)

Section NumberBlock.

(** [CUBE_SIZE], [CUBE_GAP] and [getNumberBlockColor] are imported from
    [src/types], a module this development does not embed: they are
    parameters.  A colour function is given the run-time result type
    [jsval], so that nothing is assumed about it beyond what a statement
    says. *)
Variables CUBE_SIZE CUBE_GAP : Z.
Variable getNumberBlockColor : Z → jsval.

(** The column count of the general layout (values 6, 8 and from 10 on). *)
Definition layoutCols (value : Z) : Z :=
  if 30 <=? value then Math_floor_div value 10 else 2.

Definition layoutRows (value : Z) : Z :=
  Math_ceil_div value (layoutCols value).

(** Generate cube positions for a given value. *)
Definition getCubePositions (value : Z) : list Position :=
  if value =? 4 then
    for_range 4 (λ i,
      let row := Math_floor_div i 2 in
      let col := js_rem i 2 in
      {| pos_x := col * (CUBE_SIZE + CUBE_GAP);
         pos_y := (1 - row) * (CUBE_SIZE + CUBE_GAP) |})
  else if value =? 7 then
    for_range value (λ i,
      {| pos_x := 0;
         pos_y := (value - 1 - i) * (CUBE_SIZE + CUBE_GAP) |})
  else if value =? 9 then
    for_range 9 (λ i,
      let row := Math_floor_div i 3 in
      let col := js_rem i 3 in
      {| pos_x := col * (CUBE_SIZE + CUBE_GAP);
         pos_y := (2 - row) * (CUBE_SIZE + CUBE_GAP) |})
  else if value <=? 5 then
    for_range value (λ i,
      {| pos_x := 0;
         pos_y := (value - 1 - i) * (CUBE_SIZE + CUBE_GAP) |})
  else
    let cols := layoutCols value in
    let rows := layoutRows value in
    for_range value (λ i,
      let row := Math_floor_div i cols in
      let col := js_rem i cols in
      {| pos_x := col * (CUBE_SIZE + CUBE_GAP);
         pos_y := (rows - 1 - row) * (CUBE_SIZE + CUBE_GAP) |}).

(** Get the color for a specific cube within a block. *)
Definition getCubeColor (blockValue cubeIndex totalCubes : Z) : jsval :=
  if blockValue =? 7 then getNumberBlockColor (cubeIndex + 1)
  else if blockValue =? 9 then
    js_or (js_index NINE_GRAY_COLORS cubeIndex) (JStr "#808080")
  else if blockValue <=? 10 then getNumberBlockColor blockValue
  else
    let tensCount := Math_floor_div blockValue 10 * 10 in
    let remainder := js_rem blockValue 10 in
    if cubeIndex <? tensCount then JStr "#FFFFFF"
    else
      let remainderIndex := cubeIndex - tensCount in
      if remainder =? 7 then getNumberBlockColor (remainderIndex + 1)
      else if remainder =? 9 then
        js_or (js_index NINE_GRAY_COLORS remainderIndex) (JStr "#808080")
      else if remainder =? 0 then JStr "#FFFFFF"
      else getNumberBlockColor remainder.

(** The callback of the [reduce] that finds the face cube: smallest [y],
    then smallest [x]. *)
Definition topCubeStep (arr : list Position) (minIdx : nat) (pos : Position)
    (idx : nat) : nat :=
  let minPos := arr !!! minIdx in
  if pos_y pos <? pos_y minPos then idx
  else if pos_y pos >? pos_y minPos then minIdx
  else if pos_x pos <? pos_x minPos then idx
  else minIdx.

Definition topCubeIndex (cubePositions : list Position) : nat :=
  reduce (topCubeStep cubePositions) cubePositions 0%nat.

Definition eyeCountOf (value : Z) : Z := if value =? 1 then 1 else 2.

Definition starEyesOf (value : Z) : StarEyes :=
  if value =? 5 then star_blue else if value =? 10 then star_red else star_false.

(** The props of every cube of a block, in rendering order. *)
Definition NumberBlock (value : Z) : list CubeProps :=
  let cubePositions := getCubePositions value in
  let topCube := topCubeIndex cubePositions in
  imap (λ index pos,
    let tensCount :=
      if 10 <=? value then Math_floor_div value 10 * 10 else 0 in
    let hasRedOutline :=
      (10 <=? value)
      && ((js_rem value 10 =? 0) || (Z.of_nat index <? tensCount)) in
    {| color := getCubeColor value (Z.of_nat index)
                  (Z.of_nat (length cubePositions));
       hasRedOutline := hasRedOutline;
       hasFace := bool_decide (index = topCube);
       eyeCount := eyeCountOf value;
       starEyes := starEyesOf value;
       style_left := pos_x pos;
       style_top := pos_y pos |}) cubePositions.

End NumberBlock.

(** The [border] style of a [Cube]. *)
Definition Cube_border (p : CubeProps) : option string :=
  if hasRedOutline p then Some "3px solid #FF0000"%string else None.

(** The eyes a [Cube] renders: none without a face, the left eye when
    [eyeCount >= 1], the right eye when [eyeCount >= 2]. *)
Definition Cube_eyes (p : CubeProps) : list Eye :=
  if hasFace p then
    (if 1 <=? eyeCount p then
       [ match starEyes p with
         | star_blue => cube_eye_star blue
         | star_red => cube_eye_star red
         | star_false => cube_eye
         end ]
     else [])
    ++
    (if 2 <=? eyeCount p then
       [ match starEyes p with
         | star_red => cube_eye_star red
         | _ => cube_eye
         end ]
     else [])
  else [].

(** ** Mirror.tsx *)

(** A position on the canvas, in real coordinates. *)
Record Point : Type := mkPoint { pt_x : R; pt_y : R }.

(** A pointer or element position of the palette: two JavaScript numbers,
    that is binary64 doubles. *)
Record Point64 : Type := mkPoint64 { p64_x : float; p64_y : float }.

(** The part of [getBoundingClientRect()] that the handlers read. *)
Record DOMRect : Type := mkDOMRect { rect_left : float; rect_top : float }.

(** The state of one [SpawnableBlock]: [useState(false)] and
    [useRef({ x: 0, y: 0 })]. *)
Record SpawnableState : Type := mkSpawnableState {
  isDragging : bool;
  startPosRef : Point64
}.

Definition SpawnableBlock_init : SpawnableState :=
  {| isDragging := false; startPosRef := mkPoint64 0 0 |}.

(** [elementRef.current] is the element's rectangle, or [null]. *)
Definition handleDragStart (elementRef : option DOMRect) (st : SpawnableState)
    : SpawnableState :=
  {| isDragging := true;
     startPosRef :=
       match elementRef with
       | Some rect => mkPoint64 (rect_left rect) (rect_top rect)
       | None => startPosRef st
       end |}.

(** [Math.pow(x, 2)]: the double nearest to the square of [x]. *)
Definition Math_pow2 (x : float) : float := PrimFloat.mul x x.

(** The distance computed by [handleDragEnd]: the differences, the squares,
    their sum and [Math.sqrt] each rounded to binary64. *)
Definition dragDistance (point start : Point64) : float :=
  PrimFloat.sqrt
    (PrimFloat.add
       (Math_pow2 (PrimFloat.sub (p64_x point) (p64_x start)))
       (Math_pow2 (PrimFloat.sub (p64_y point) (p64_y start)))).

Section Mirror.

(** [CUBE_SIZE] of [src/types], as the double it is. *)
Variable CUBE_SIZE : float.

(** Returns the new state and the calls made to [onDragOut], in order.
    [distance > 50] is the comparison of doubles (false on NaN). *)
Definition handleDragEnd (value : Z) (point : Point64) (st : SpawnableState)
    : SpawnableState * list (Z * Point64) :=
  let st' := {| isDragging := false; startPosRef := startPosRef st |} in
  let distance := dragDistance point (startPosRef st) in
  if PrimFloat.ltb 50 distance then
    (st', [ (value,
             mkPoint64
               (PrimFloat.sub (p64_x point) (PrimFloat.div CUBE_SIZE 2))
               (PrimFloat.sub (p64_y point) (PrimFloat.div CUBE_SIZE 2))) ])
  else (st', []).

End Mirror.

(** ** The base palette *)

(** Modelled from the spec: the colour table behind [getNumberBlockColor],
    whose module [src/types/index.ts] is missing.  Section 4.2 of the
    specification lists the base palette by value: 1=Red, 2=Orange, 3=Yellow,
    4=Green, 5=Cyan, 6=Indigo, 7=Violet, 8=Magenta, 10=White; it names no
    single colour for 9 and nothing outside 1..10, so the table has no entry
    there. *)
Definition basePalette : list (Z * string) :=
  [ (1, "Red"); (2, "Orange"); (3, "Yellow"); (4, "Green"); (5, "Cyan");
    (6, "Indigo"); (7, "Violet"); (8, "Magenta"); (10, "White") ]%string.

(** A colour function agrees with the base palette when it returns the listed
    colour at every listed value. *)
Definition agreesWithBasePalette (f : Z → jsval) : Prop :=
  ∀ n c, (n, c) ∈ basePalette → f n = JStr c.

(** Modelled from the spec: [getNumberBlockColor] (of the missing
    [src/types/index.ts]) as far as section 4.2 fixes it, the base palette
    read as a function; [undefined] where the table is silent. *)
Definition basePaletteColor (n : Z) : jsval :=
  match list_find (λ e, e.1 = n) basePalette with
  | Some (_, (_, c)) => JStr c
  | None => JUndefined
  end.

(** ** Notions used to state the properties *)

(** The grid cell of cube [i] in a layout of [cols] columns and [rows] rows
    with cell pitch [pitch]: columns left to right, rows bottom to top. *)
Definition gridCell (pitch cols rows i : Z) : Position :=
  {| pos_x := (i `mod` cols) * pitch;
     pos_y := (rows - 1 - i `div` cols) * pitch |}.

(** Columns and rows of every layout, the special cases included. *)
Definition gridCols (value : Z) : Z :=
  if value =? 4 then 2
  else if value =? 7 then 1
  else if value =? 9 then 3
  else if value <=? 5 then 1
  else layoutCols value.

Definition gridRows (value : Z) : Z :=
  if value =? 4 then 2
  else if value =? 7 then 7
  else if value =? 9 then 3
  else if value <=? 5 then value
  else layoutRows value.

(** [p] is higher on screen than [q], or level with it and further left. *)
Definition topLeftOf (p q : Position) : Prop :=
  pos_y p < pos_y q ∨ (pos_y p = pos_y q ∧ pos_x p < pos_x q).

(** The invariant of the [reduce] behind [topCubeIndex]: after the first [k]
    elements of [arr] the accumulator [m] is the first index among them that
    none of them is [topLeftOf]. *)
Definition topCubeInv (arr : list Position) (k m : nat) : Prop :=
  (k = 0 ∧ m = 0)%nat
  ∨ ((m < k)%nat
     ∧ (∀ j p, (j < k)%nat → arr !! j = Some p → ¬ topLeftOf p (arr !!! m))
     ∧ (∀ j p, (j < m)%nat → arr !! j = Some p → topLeftOf (arr !!! m) p)).

(** The value of a hexadecimal digit. *)
Definition hexDigit (c : Ascii.ascii) : option Z :=
  list_find (λ d, d = c)
    (String.list_ascii_of_string "0123456789ABCDEF") ≫= λ r, Some (Z.of_nat r.1).

(** The three channels of a colour written [#RRGGBB]. *)
Definition hexChannels (s : string) : option (Z * Z * Z) :=
  match String.list_ascii_of_string s with
  | [h; r1; r0; g1; g0; b1; b0] =>
      if Ascii.eqb h (Ascii.ascii_of_nat 35) then
        r1 ← hexDigit r1; r0 ← hexDigit r0;
        g1 ← hexDigit g1; g0 ← hexDigit g0;
        b1 ← hexDigit b1; b0 ← hexDigit b0;
        Some (16 * r1 + r0, 16 * g1 + g0, 16 * b1 + b0)
      else None
  | _ => None
  end.

(** The level of a gray ([R = G = B]); higher is lighter. *)
Definition grayLevel (s : string) : option Z :=
  hexChannels s ≫= λ '(r, g, b),
    if (r =? g) && (g =? b) then Some r else None.

(** ** The palette face and rows (Mirror.tsx) *)

(** The eyes in the face of a [SpawnableBlock]: the left eye, then the right
    eye unless the value is 1. *)
Definition SpawnableBlock_eyes (value : Z) : list Eye :=
  [ if value =? 5 then cube_eye_star blue
    else if value =? 10 then cube_eye_star red
    else cube_eye ]
  ++ (if negb (value =? 1)
      then [ if value =? 10 then cube_eye_star red else cube_eye ]
      else []).

(** [arr.slice(start, end)] for [0 <= start <= end]. *)
Definition js_slice {A : Type} (start stop : nat) (arr : list A) : list A :=
  take (stop - start) (drop start arr).

(** The default of the [values] prop. *)
Definition Mirror_default_values : list Z := [1; 2; 3; 4; 5; 6; 7; 8; 9; 10].

(** The rows of spawnable blocks that [Mirror] renders, each block given by
    its value; the bottom row only when it is not empty. *)
Definition Mirror (values : list Z) : list (list Z) :=
  let topRow := js_slice 0 5 values in
  let bottomRow := js_slice 5 10 values in
  [topRow] ++ (if (0 <? length bottomRow)%nat then [bottomRow] else []).

(** ** The pointer handlers of a block (NumberBlock.tsx) *)

Module BlockDrag.

(** The props the handlers read; a callback prop is present or not. *)
Record Props : Type := mkProps {
  id : string;
  value : Z;
  onDragStart : bool;
  onDrag : bool;
  onDragEnd : bool;
  onRightClick : bool
}.

(** A call made to one of the callback props. *)
Inductive Call : Type :=
  | call_onDragStart (id : string)
  | call_onDrag (id : string) (position : Point)
  | call_onDragEnd (id : string) (position : Point)
  | call_onRightClick (id : string) (value : Z) (position : Point).

(** The [position] prop of the current render and the [dragStartPos] ref. *)
Record State : Type := mkState {
  position : Point;
  dragStartPos : Point
}.

(** First render: [useRef(position)]. *)
Definition mount (position : Point) : State :=
  {| position := position; dragStartPos := position |}.

Definition offsetBy (start offset : Point) : Point :=
  mkPoint (pt_x start + pt_x offset) (pt_y start + pt_y offset).

Definition handleDragStart (props : Props) (st : State) : State * list Call :=
  ({| position := position st; dragStartPos := position st |},
   if onDragStart props then [call_onDragStart (id props)] else []).

Definition handleDrag (props : Props) (offset : Point) (st : State)
    : State * list Call :=
  let currentPos := offsetBy (dragStartPos st) offset in
  (st, if onDrag props then [call_onDrag (id props) currentPos] else []).

Definition handleDragEnd (props : Props) (offset : Point) (st : State)
    : State * list Call :=
  let finalPos := offsetBy (dragStartPos st) offset in
  (st, if onDragEnd props then [call_onDragEnd (id props) finalPos] else []).

(** Only show the subtract menu for values above 1. *)
Definition handleContextMenu (props : Props) (client : Point) (st : State)
    : State * list Call :=
  (st,
   if (1 <? value props) && onRightClick props
   then [call_onRightClick (id props) (value props) client]
   else []).

(** What can happen to a mounted block: a render with a new [position] prop
    (the ref survives it), or one of the four pointer events. *)
Inductive Event : Type :=
  | Render (position : Point)
  | DragStart
  | Drag (offset : Point)
  | DragEnd (offset : Point)
  | ContextMenu (client : Point).

Definition step (props : Props) (e : Event) (st : State) : State * list Call :=
  match e with
  | Render p => ({| position := p; dragStartPos := dragStartPos st |}, [])
  | DragStart => handleDragStart props st
  | Drag offset => handleDrag props offset st
  | DragEnd offset => handleDragEnd props offset st
  | ContextMenu client => handleContextMenu props client st
  end.

(** The events handled one after the other; the calls in the order made. *)
Fixpoint run (props : Props) (es : list Event) (st : State)
    : State * list Call :=
  match es with
  | [] => (st, [])
  | e :: es' =>
      let '(st1, calls1) := step props e st in
      let '(st2, calls2) := run props es' st1 in
      (st2, calls1 ++ calls2)
  end.

End BlockDrag.

(** * Properties *)

(** ** The loop and the arithmetic helpers *)

Lemma for_push_fmap {A : Type} (body : Z → A) (bound : Z) :
  ∀ (fuel : nat) (i : Z) (positions : list A),
    bound - i ≤ Z.of_nat fuel →
    for_push fuel i bound body positions
    = positions ++ (body <$> seqZ i (bound - i)).
Proof.
  induction fuel as [|fuel IH]; intros i positions Hfuel; simpl.
  - rewrite seqZ_nil by lia. by rewrite app_nil_r.
  - destruct (Z.ltb_spec i bound) as [Hlt|Hge].
    + rewrite IH by lia.
      rewrite (seqZ_cons i) by lia. rewrite fmap_cons.
      rewrite <- app_assoc. simpl.
      by replace (Z.pred (bound - i)) with (bound - (i + 1)) by lia.
    + rewrite seqZ_nil by lia. by rewrite app_nil_r.
Qed.

(** The fuel of [for_range] is never what stops the loop. *)
Lemma for_range_fmap {A : Type} (bound : Z) (body : Z → A) :
  for_range bound body = body <$> seqZ 0 bound.
Proof.
  unfold for_range. rewrite for_push_fmap by lia.
  by rewrite Z.sub_0_r.
Qed.

Lemma fmap_seqZ_ext {A : Type} (f g : Z → A) (m n : Z) :
  (∀ i, m ≤ i < m + n → f i = g i) → f <$> seqZ m n = g <$> seqZ m n.
Proof.
  intros Hfg. apply list_fmap_ext. intros k i Hi.
  apply Hfg. apply elem_of_seqZ. by eapply list_elem_of_lookup_2.
Qed.

Lemma js_rem_mod (a b : Z) : 0 ≤ a → 0 < b → js_rem a b = a `mod` b.
Proof. intros. unfold js_rem. by apply Z.rem_mod_nonneg. Qed.

(** [Math_ceil_div] is the least number of rows of [b] cubes that hold [a]. *)
Lemma Math_ceil_div_spec (a b : Z) :
  0 < b → (Math_ceil_div a b - 1) * b < a ≤ Math_ceil_div a b * b.
Proof.
  intros Hb. unfold Math_ceil_div.
  pose proof (Z.div_mod (- a) b ltac:(lia)) as Hdm.
  pose proof (Z.mod_pos_bound (- a) b Hb) as Hm.
  nia.
Qed.

Lemma layoutCols_pos (value : Z) : 2 ≤ layoutCols value.
Proof.
  unfold layoutCols, Math_floor_div.
  destruct (Z.leb_spec 30 value); [|lia].
  apply Z.div_le_lower_bound; lia.
Qed.

Lemma gridCols_pos (value : Z) : 1 ≤ gridCols value.
Proof.
  unfold gridCols. pose proof (layoutCols_pos value).
  repeat case_match; lia.
Qed.

(** ** The layout as a grid *)

Section Layout.

Variables CUBE_SIZE CUBE_GAP : Z.

Local Abbreviation pitch := (CUBE_SIZE + CUBE_GAP).
Local Abbreviation layout := (getCubePositions CUBE_SIZE CUBE_GAP).

(** Every branch of [getCubePositions] fills a grid: cube [i] sits in column
    [i mod cols] of row [i / cols], rows counted from the bottom. *)
Lemma getCubePositions_grid (value : Z) :
  layout value
  = gridCell pitch (gridCols value) (gridRows value) <$> seqZ 0 value.
Proof.
  unfold getCubePositions, gridCols, gridRows.
  destruct (Z.eqb_spec value 4) as [->|H4].
  { rewrite for_range_fmap. apply fmap_seqZ_ext. intros i Hi.
    unfold gridCell, Math_floor_div. rewrite js_rem_mod by lia.
    f_equal; lia. }
  destruct (Z.eqb_spec value 7) as [->|H7].
  { rewrite for_range_fmap. apply fmap_seqZ_ext. intros i Hi.
    unfold gridCell. rewrite Z.mod_1_r, Z.div_1_r. f_equal; lia. }
  destruct (Z.eqb_spec value 9) as [->|H9].
  { rewrite for_range_fmap. apply fmap_seqZ_ext. intros i Hi.
    unfold gridCell, Math_floor_div. rewrite js_rem_mod by lia.
    f_equal; lia. }
  destruct (Z.leb_spec value 5) as [H5|H5].
  { rewrite for_range_fmap. apply fmap_seqZ_ext. intros i Hi.
    unfold gridCell. rewrite Z.mod_1_r, Z.div_1_r. f_equal; lia. }
  cbv zeta. rewrite for_range_fmap. apply fmap_seqZ_ext. intros i Hi.
  pose proof (layoutCols_pos value).
  unfold gridCell, Math_floor_div. rewrite js_rem_mod by lia. done.
Qed.

Lemma length_getCubePositions (value : Z) :
  length (layout value) = Z.to_nat value.
Proof. by rewrite getCubePositions_grid, length_fmap, length_seqZ. Qed.

Lemma lookup_getCubePositions (value : Z) (i : nat) :
  Z.of_nat i < value →
  layout value !! i
  = Some (gridCell pitch (gridCols value) (gridRows value) (Z.of_nat i)).
Proof.
  intros Hi. rewrite getCubePositions_grid, list_lookup_fmap.
  by rewrite lookup_seqZ_lt.
Qed.

Lemma gridCell_inj (cols rows i j : Z) :
  pitch ≠ 0 → 0 < cols →
  gridCell pitch cols rows i = gridCell pitch cols rows j → i = j.
Proof.
  intros Hp Hc [= Hx Hy].
  apply Z.mul_cancel_r in Hx; [|done].
  apply Z.mul_cancel_r in Hy; [|done].
  rewrite (Z.div_mod i cols), (Z.div_mod j cols) by lia.
  rewrite Hx. f_equal. f_equal. lia.
Qed.

Lemma NoDup_getCubePositions (value : Z) :
  pitch ≠ 0 → NoDup (layout value).
Proof.
  intros Hp. rewrite getCubePositions_grid.
  apply NoDup_fmap_2_strong; [|apply NoDup_seqZ].
  intros i j _ _. apply gridCell_inj; [done|].
  pose proof (gridCols_pos value). lia.
Qed.

End Layout.

(** ** The face cube: what the [reduce] computes *)

Section TopCube.

Variable arr : list Position.

Lemma topCubeStep_inv (k m : nat) (pos : Position) :
  arr !! k = Some pos →
  topCubeInv arr k m → topCubeInv arr (S k) (topCubeStep arr m pos k).
Proof.
  intros Hk [[-> ->]|(Hm & Hmin & Hfirst)]; right.
  - assert (topCubeStep arr 0 pos 0 = 0%nat) as ->.
    { unfold topCubeStep. rewrite (list_lookup_total_correct _ _ _ Hk).
      by rewrite !Z.ltb_irrefl, Z.gtb_ltb, Z.ltb_irrefl. }
    rewrite (list_lookup_total_correct _ _ _ Hk).
    split; [lia|]. split.
    + intros j p Hj Hp. assert (j = 0%nat) as -> by lia.
      rewrite Hk in Hp. injection Hp as ->. unfold topLeftOf. lia.
    + intros j p Hj. lia.
  - unfold topCubeStep.
    destruct (lookup_lt_is_Some_2 arr m) as [minPos HminPos].
    { apply lookup_lt_Some in Hk. lia. }
    rewrite (list_lookup_total_correct _ _ _ HminPos) in *.
    assert (Hle : ∀ j p, (j < k)%nat → arr !! j = Some p →
                  pos_y minPos < pos_y p
                  ∨ (pos_y minPos = pos_y p ∧ pos_x minPos ≤ pos_x p)).
    { intros j p Hj Hp. specialize (Hmin j p Hj Hp). unfold topLeftOf in Hmin. lia. }
    rewrite Z.gtb_ltb.
    destruct (Z.ltb_spec (pos_y pos) (pos_y minPos)) as [Hy|Hy];
      [|destruct (Z.ltb_spec (pos_y minPos) (pos_y pos)) as [Hy'|Hy'];
        [|destruct (Z.ltb_spec (pos_x pos) (pos_x minPos)) as [Hx|Hx]]].
    all: try rewrite (list_lookup_total_correct _ _ _ Hk).
    all: try rewrite (list_lookup_total_correct _ _ _ HminPos).
    all: split; [lia|]; split.
    all: intros j p Hj Hp.
    all: try (destruct (decide (j = k)) as [->|Hne];
              [ rewrite Hk in Hp; injection Hp as ->; unfold topLeftOf; lia
              | specialize (Hle j p ltac:(lia) Hp); unfold topLeftOf; lia ]).
    all: try (specialize (Hle j p ltac:(lia) Hp); unfold topLeftOf; lia).
    all: exact (Hfirst j p Hj Hp).
Qed.

Lemma reduce_from_topCubeInv (l pre : list Position) (m : nat) :
  arr = pre ++ l → topCubeInv arr (length pre) m →
  topCubeInv arr (length arr)
    (reduce_from (topCubeStep arr) (length pre) l m).
Proof.
  revert pre m. induction l as [|a l IH]; intros pre m Harr Hinv; simpl.
  - rewrite app_nil_r in Harr. by rewrite <- Harr in Hinv.
  - specialize (IH (pre ++ [a]) (topCubeStep arr m a (length pre))).
    rewrite length_app, Nat.add_1_r in IH. apply IH.
    + by rewrite <- app_assoc.
    + apply topCubeStep_inv; [|done].
      rewrite Harr. by rewrite list_lookup_middle.
Qed.

(** On a non-empty array the face index is in range, no cube is higher or
    level and further left, and it is the first such index. *)
Lemma topCubeIndex_spec :
  arr ≠ [] →
  (topCubeIndex arr < length arr)%nat
  ∧ (∀ j p, arr !! j = Some p → ¬ topLeftOf p (arr !!! topCubeIndex arr))
  ∧ (∀ j p, (j < topCubeIndex arr)%nat → arr !! j = Some p →
       topLeftOf (arr !!! topCubeIndex arr) p).
Proof.
  intros Hne.
  destruct (reduce_from_topCubeInv arr [] 0%nat eq_refl)
    as [[Hlen _]|(Hm & Hmin & Hfirst)].
  { by left. }
  { destruct arr; [done|simpl in Hlen; lia]. }
  unfold topCubeIndex, reduce. simpl in *.
  split; [done|]. split; [|done].
  intros j p Hp. apply (Hmin j p); [|done]. by eapply lookup_lt_Some.
Qed.

(** With pairwise distinct positions the face cube is strictly the topmost,
    then leftmost one. *)
Lemma topCubeIndex_strict :
  arr ≠ [] → NoDup arr →
  ∀ j p, arr !! j = Some p → j ≠ topCubeIndex arr →
    topLeftOf (arr !!! topCubeIndex arr) p.
Proof.
  intros Hne Hnd j p Hp Hj.
  destruct (topCubeIndex_spec Hne) as (Hlt & Hmin & _).
  destruct (lookup_lt_is_Some_2 arr _ Hlt) as [q Hq].
  rewrite (list_lookup_total_correct _ _ _ Hq) in *.
  specialize (Hmin j p Hp).
  assert (p ≠ q) as Hpq.
  { intros ->. apply Hj. eapply NoDup_lookup; eauto. }
  unfold topLeftOf in *. destruct p as [px py], q as [qx qy]; simpl in *.
  assert (px ≠ qx ∨ py ≠ qy) by (destruct (decide (px = qx)); [right; congruence|by left]).
  lia.
Qed.

End TopCube.

(** ** The rendered cubes *)

Lemma lookup_NumberBlock (CUBE_SIZE CUBE_GAP : Z) (palette : Z → jsval)
    (value : Z) (i : nat) (cube : CubeProps) :
  NumberBlock CUBE_SIZE CUBE_GAP palette value !! i = Some cube →
  ∃ pos, getCubePositions CUBE_SIZE CUBE_GAP value !! i = Some pos
    ∧ style_left cube = pos_x pos ∧ style_top cube = pos_y pos
    ∧ hasFace cube
      = bool_decide (i = topCubeIndex (getCubePositions CUBE_SIZE CUBE_GAP value))
    ∧ color cube
      = getCubeColor palette value (Z.of_nat i)
          (Z.of_nat (length (getCubePositions CUBE_SIZE CUBE_GAP value)))
    ∧ eyeCount cube = eyeCountOf value ∧ starEyes cube = starEyesOf value.
Proof.
  unfold NumberBlock. cbv zeta. rewrite list_lookup_imap.
  destruct (getCubePositions CUBE_SIZE CUBE_GAP value !! i) as [pos|] eqn:Hpos;
    [|done].
  intros [= <-]. exists pos. simpl. done.
Qed.

(** ** Layout *)

(** C1.  For every integer [value >= 1], [getCubePositions value] has exactly
    [value] offsets, they are pairwise distinct, and the result depends on
    [value] alone: a second call with the same value gives the same sequence
    and hence the same face-cube index.  The cell pitch
    [CUBE_SIZE + CUBE_GAP] is taken positive. *)
Theorem getCubePositions_count_distinct_stable (CUBE_SIZE CUBE_GAP value : Z) :
  0 < CUBE_SIZE + CUBE_GAP → 1 ≤ value →
  Z.of_nat (length (getCubePositions CUBE_SIZE CUBE_GAP value)) = value
  ∧ NoDup (getCubePositions CUBE_SIZE CUBE_GAP value)
  ∧ ∀ again, again = value →
      getCubePositions CUBE_SIZE CUBE_GAP again
      = getCubePositions CUBE_SIZE CUBE_GAP value
      ∧ topCubeIndex (getCubePositions CUBE_SIZE CUBE_GAP again)
        = topCubeIndex (getCubePositions CUBE_SIZE CUBE_GAP value).
Proof.
  intros Hp Hv. split; [|split].
  - rewrite length_getCubePositions. lia.
  - apply NoDup_getCubePositions. lia.
  - by intros again ->.
Qed.

Lemma getCubePositions_count_distinct_stable_witness :
  (0 < 40 + 4 ∧ 1 ≤ 11)
  ∧ Z.of_nat (length (getCubePositions 40 4 11)) = 11
  ∧ NoDup (getCubePositions 40 4 11).
Proof.
  split; [lia|].
  destruct (getCubePositions_count_distinct_stable 40 4 11) as (Hlen & Hnd & _);
    [lia|lia|]. by split.
Defined.

Ltac layout_list :=
  rewrite getCubePositions_grid;
  unfold gridCols, gridRows, gridCell, layoutCols, layoutRows,
    Math_ceil_div, Math_floor_div;
  vm_compute seqZ; simpl;
  repeat match goal with
    | |- context [?a `mod` ?b] =>
        let v := eval vm_compute in (a `mod` b) in change (a `mod` b) with v
    | |- context [?a `div` ?b] =>
        let v := eval vm_compute in (a `div` b) in change (a `div` b) with v
    end;
  repeat f_equal; lia.

(** C6.  The special-case layouts: 4 is a 2x2 square and 9 a 3x3 square,
    filled row by row from the bottom row upwards; 7 and each of 1, 2, 3, 5
    is a single column ([x = 0] throughout) listed from the bottom cube to
    the top cube ([y] falls to 0). *)
Theorem getCubePositions_special_layouts (CUBE_SIZE CUBE_GAP : Z) :
  let pitch := CUBE_SIZE + CUBE_GAP in
  let layout := getCubePositions CUBE_SIZE CUBE_GAP in
  layout 4
  = [ mkPosition 0 pitch; mkPosition pitch pitch;
      mkPosition 0 0; mkPosition pitch 0 ]
  ∧ layout 7
    = [ mkPosition 0 (6 * pitch); mkPosition 0 (5 * pitch);
        mkPosition 0 (4 * pitch); mkPosition 0 (3 * pitch);
        mkPosition 0 (2 * pitch); mkPosition 0 pitch; mkPosition 0 0 ]
  ∧ layout 9
    = [ mkPosition 0 (2 * pitch); mkPosition pitch (2 * pitch);
        mkPosition (2 * pitch) (2 * pitch);
        mkPosition 0 pitch; mkPosition pitch pitch;
        mkPosition (2 * pitch) pitch;
        mkPosition 0 0; mkPosition pitch 0; mkPosition (2 * pitch) 0 ]
  ∧ layout 1 = [ mkPosition 0 0 ]
  ∧ layout 2 = [ mkPosition 0 pitch; mkPosition 0 0 ]
  ∧ layout 3 = [ mkPosition 0 (2 * pitch); mkPosition 0 pitch; mkPosition 0 0 ]
  ∧ layout 5
    = [ mkPosition 0 (4 * pitch); mkPosition 0 (3 * pitch);
        mkPosition 0 (2 * pitch); mkPosition 0 pitch; mkPosition 0 0 ].
Proof.
  intros pitch layout. subst pitch layout.
  repeat split; layout_list.
Qed.

(** C2.  For [value >= 6] other than 7 and 9 the layout has [cols = 2]
    columns up to 29 and [cols = floor(value / 10)] from 30 on, and
    [rows = ceil(value / cols)] rows (the least number of rows of [cols]
    cubes that hold [value]); cube [i] sits at
    [x = (i mod cols) * pitch], [y = (rows - 1 - floor(i / cols)) * pitch].
    In particular 11 is laid out in 2 columns and 6 rows, and (the pitch
    being positive) its topmost row [y = 0] holds exactly one cube, the last
    one, in the leftmost column [x = 0]. *)
Theorem getCubePositions_general_grid (CUBE_SIZE CUBE_GAP value : Z) :
  6 ≤ value → value ≠ 7 → value ≠ 9 →
  let pitch := CUBE_SIZE + CUBE_GAP in
  let layout := getCubePositions CUBE_SIZE CUBE_GAP in
  let cols := layoutCols value in
  let rows := layoutRows value in
  (value ≤ 29 → cols = 2)
  ∧ (30 ≤ value → cols = value `div` 10)
  ∧ rows = Math_ceil_div value cols
  ∧ (rows - 1) * cols < value ≤ rows * cols
  ∧ Z.of_nat (length (layout value)) = value
  ∧ (∀ i : nat, Z.of_nat i < value →
       layout value !! i
       = Some {| pos_x := (Z.of_nat i `mod` cols) * pitch;
                 pos_y := (rows - 1 - Z.of_nat i `div` cols) * pitch |})
  ∧ layoutCols 11 = 2 ∧ layoutRows 11 = 6
  ∧ layout 11
    = [ mkPosition 0 (5 * pitch); mkPosition pitch (5 * pitch);
        mkPosition 0 (4 * pitch); mkPosition pitch (4 * pitch);
        mkPosition 0 (3 * pitch); mkPosition pitch (3 * pitch);
        mkPosition 0 (2 * pitch); mkPosition pitch (2 * pitch);
        mkPosition 0 pitch; mkPosition pitch pitch;
        mkPosition 0 0 ]
  ∧ (0 < pitch → ∀ (i : nat) p, layout 11 !! i = Some p →
       0 ≤ pos_y p ∧ (pos_y p = 0 → i = 10%nat ∧ pos_x p = 0)).
Proof.
  intros H6 H7 H9 pitch layout cols rows. subst pitch layout cols rows.
  assert (Hgrid : gridCols value = layoutCols value
                  ∧ gridRows value = layoutRows value).
  { unfold gridCols, gridRows.
    destruct (Z.eqb_spec value 4); [lia|]. destruct (Z.eqb_spec value 7); [lia|].
    destruct (Z.eqb_spec value 9); [lia|]. destruct (Z.leb_spec value 5); [lia|].
    done. }
  destruct Hgrid as [Hcols Hrows].
  assert (H11 : getCubePositions CUBE_SIZE CUBE_GAP 11
    = [ mkPosition 0 (5 * (CUBE_SIZE + CUBE_GAP));
        mkPosition (CUBE_SIZE + CUBE_GAP) (5 * (CUBE_SIZE + CUBE_GAP));
        mkPosition 0 (4 * (CUBE_SIZE + CUBE_GAP));
        mkPosition (CUBE_SIZE + CUBE_GAP) (4 * (CUBE_SIZE + CUBE_GAP));
        mkPosition 0 (3 * (CUBE_SIZE + CUBE_GAP));
        mkPosition (CUBE_SIZE + CUBE_GAP) (3 * (CUBE_SIZE + CUBE_GAP));
        mkPosition 0 (2 * (CUBE_SIZE + CUBE_GAP));
        mkPosition (CUBE_SIZE + CUBE_GAP) (2 * (CUBE_SIZE + CUBE_GAP));
        mkPosition 0 (CUBE_SIZE + CUBE_GAP);
        mkPosition (CUBE_SIZE + CUBE_GAP) (CUBE_SIZE + CUBE_GAP);
        mkPosition 0 0 ]) by layout_list.
  pose proof (layoutCols_pos value) as Hpos.
  split; [|split; [|split; [|split; [|split; [|split]]]]].
  - intros Hle. unfold layoutCols. destruct (Z.leb_spec 30 value); [lia|done].
  - intros Hge. unfold layoutCols, Math_floor_div.
    destruct (Z.leb_spec 30 value); [done|lia].
  - done.
  - apply Math_ceil_div_spec. lia.
  - rewrite length_getCubePositions. lia.
  - intros i Hi. rewrite lookup_getCubePositions by done.
    by rewrite Hcols, Hrows.
  - split; [done|]. split; [done|]. split; [exact H11|].
    intros Hp i p Hlook. rewrite H11 in Hlook.
    do 11 (destruct i as [|i];
           [injection Hlook as <-; simpl; split; [lia|intros Hy; split; lia]|]).
    done.
Qed.

Lemma getCubePositions_general_grid_witness :
  (6 ≤ 35 ∧ 35 ≠ 7 ∧ 35 ≠ 9)
  ∧ layoutCols 35 = 35 `div` 10
  ∧ getCubePositions 40 4 35 !! 34%nat
    = Some {| pos_x := (34 `mod` layoutCols 35) * (40 + 4);
              pos_y := (layoutRows 35 - 1 - 34 `div` layoutCols 35) * (40 + 4) |}.
Proof.
  split; [lia|].
  destruct (getCubePositions_general_grid 40 4 35)
    as (_ & Hcols & _ & _ & _ & Hcell & _); [lia|lia|lia|].
  split; [apply Hcols; lia|apply (Hcell 34%nat); lia].
Defined.

(** ** Face *)

(** C7.  For every [value >= 1] exactly one of the rendered cubes has the
    face: the one at [topCubeIndex], whose offset is higher on screen
    (smaller [y]) than that of every other cube or level with it and further
    left (smaller [x]).  The cell pitch is taken positive, so that offsets
    are pairwise distinct. *)
Theorem NumberBlock_single_face (CUBE_SIZE CUBE_GAP : Z) (palette : Z → jsval)
    (value : Z) :
  0 < CUBE_SIZE + CUBE_GAP → 1 ≤ value →
  let cubes := NumberBlock CUBE_SIZE CUBE_GAP palette value in
  Z.of_nat (length cubes) = value
  ∧ ∃ top face,
      top = topCubeIndex (getCubePositions CUBE_SIZE CUBE_GAP value)
      ∧ cubes !! top = Some face
      ∧ hasFace face = true
      ∧ ∀ i cube, cubes !! i = Some cube → i ≠ top →
          hasFace cube = false
          ∧ topLeftOf (mkPosition (style_left face) (style_top face))
                      (mkPosition (style_left cube) (style_top cube)).
Proof.
  intros Hp Hv cubes. subst cubes.
  set (arr := getCubePositions CUBE_SIZE CUBE_GAP value).
  assert (Hlen : length arr = Z.to_nat value) by apply length_getCubePositions.
  assert (Hne : arr ≠ []) by (intros E; rewrite E in Hlen; simpl in Hlen; lia).
  assert (Hnd : NoDup arr) by (apply NoDup_getCubePositions; lia).
  destruct (topCubeIndex_spec arr Hne) as (Hlt & _ & _).
  split.
  { unfold NumberBlock. cbv zeta. rewrite length_imap. fold arr. lia. }
  destruct (lookup_lt_is_Some_2
              (NumberBlock CUBE_SIZE CUBE_GAP palette value) (topCubeIndex arr))
    as [face Hface].
  { unfold NumberBlock. cbv zeta. rewrite length_imap. by fold arr. }
  exists (topCubeIndex arr), face. split; [done|]. split; [done|].
  destruct (lookup_NumberBlock _ _ _ _ _ _ Hface)
    as (pos & Hpos & Hl & Ht & Hf & _).
  fold arr in Hpos, Hf. split.
  { rewrite Hf. by apply bool_decide_eq_true. }
  intros i cube Hcube Hi.
  destruct (lookup_NumberBlock _ _ _ _ _ _ Hcube)
    as (pos' & Hpos' & Hl' & Ht' & Hf' & _).
  fold arr in Hpos', Hf'. split.
  { rewrite Hf'. by apply bool_decide_eq_false. }
  pose proof (topCubeIndex_strict arr Hne Hnd i pos' Hpos' Hi) as Hstrict.
  rewrite (list_lookup_total_correct _ _ _ Hpos) in Hstrict.
  unfold topLeftOf in *. simpl. rewrite Hl, Ht, Hl', Ht'. done.
Qed.

Lemma NumberBlock_single_face_witness :
  (0 < 40 + 4 ∧ 1 ≤ 11)
  ∧ ∃ top face,
      top = 10%nat
      ∧ NumberBlock 40 4 basePaletteColor 11 !! top = Some face
      ∧ hasFace face = true
      ∧ style_left face = 0 ∧ style_top face = 0.
Proof.
  split; [lia|].
  destruct (NumberBlock_single_face 40 4 basePaletteColor 11)
    as (_ & top & face & Htop & Hface & Hf & _); [lia|lia|].
  exists top, face.
  assert (top = 10%nat) as Htop10 by (rewrite Htop; vm_compute; reflexivity).
  split; [done|]. split; [done|]. split; [done|].
  rewrite Htop10 in Hface. vm_compute in Hface. injection Hface as <-. done.
Defined.

(** C8.  The eyes of the face cube follow the value: for 1 only the left eye,
    a normal one; for 5 a blue star eye on the left and a normal eye on the
    right; for 10 two red star eyes; for every other value two normal eyes.
    Cubes without the face render no eye. *)
Theorem face_eyes_by_value (CUBE_SIZE CUBE_GAP : Z) (palette : Z → jsval)
    (value : Z) (i : nat) (cube : CubeProps) :
  NumberBlock CUBE_SIZE CUBE_GAP palette value !! i = Some cube →
  (hasFace cube = false → Cube_eyes cube = [])
  ∧ (hasFace cube = true →
       (value = 1 → Cube_eyes cube = [cube_eye])
       ∧ (value = 5 → Cube_eyes cube = [cube_eye_star blue; cube_eye])
       ∧ (value = 10 →
            Cube_eyes cube = [cube_eye_star red; cube_eye_star red])
       ∧ (value ≠ 1 → value ≠ 5 → value ≠ 10 →
            Cube_eyes cube = [cube_eye; cube_eye])).
Proof.
  intros Hcube.
  destruct (lookup_NumberBlock _ _ _ _ _ _ Hcube)
    as (_ & _ & _ & _ & _ & _ & Hcount & Hstar).
  unfold Cube_eyes. rewrite Hcount, Hstar. unfold eyeCountOf, starEyesOf.
  split; [by intros ->|]. intros ->.
  repeat split.
  - by intros ->.
  - by intros ->.
  - by intros ->.
  - intros H1 H5 H10.
    destruct (Z.eqb_spec value 1); [done|].
    destruct (Z.eqb_spec value 5); [done|].
    destruct (Z.eqb_spec value 10); done.
Qed.

Lemma face_eyes_by_value_witness :
  ∃ cube,
    NumberBlock 40 4 basePaletteColor 5 !! 4%nat = Some cube
    ∧ hasFace cube = true
    ∧ Cube_eyes cube = [cube_eye_star blue; cube_eye].
Proof.
  destruct (NumberBlock 40 4 basePaletteColor 5 !! 4%nat) as [cube|] eqn:Hcube;
    [|vm_compute in Hcube; discriminate].
  exists cube. split; [done|].
  assert (Hface : hasFace cube = true)
    by (vm_compute in Hcube; injection Hcube as <-; reflexivity).
  split; [done|].
  destruct (face_eyes_by_value 40 4 basePaletteColor 5 4 cube Hcube)
    as (_ & Heyes).
  by apply Heyes.
Defined.

(** ** Colour *)

Lemma lookup_NumberBlock_outline (CUBE_SIZE CUBE_GAP : Z) (palette : Z → jsval)
    (value : Z) (i : nat) (cube : CubeProps) :
  NumberBlock CUBE_SIZE CUBE_GAP palette value !! i = Some cube →
  hasRedOutline cube
  = (10 <=? value)
    && ((js_rem value 10 =? 0)
        || (Z.of_nat i <? (if 10 <=? value then Math_floor_div value 10 * 10 else 0))).
Proof.
  unfold NumberBlock. cbv zeta. rewrite list_lookup_imap.
  destruct (getCubePositions CUBE_SIZE CUBE_GAP value !! i) as [pos|]; [|done].
  by intros [= <-].
Qed.

(** Above 10 the first two tests of [getCubeColor] fail and the third does
    too: the tens/remainder branch is taken. *)
Lemma getCubeColor_above_ten (palette : Z → jsval) (value index total : Z) :
  10 < value →
  getCubeColor palette value index total
  = if index <? value `div` 10 * 10 then JStr "#FFFFFF"
    else if value `mod` 10 =? 7
         then palette (index - value `div` 10 * 10 + 1)
    else if value `mod` 10 =? 9
         then js_or (js_index NINE_GRAY_COLORS (index - value `div` 10 * 10))
                    (JStr "#808080")
    else if value `mod` 10 =? 0 then JStr "#FFFFFF"
    else palette (value `mod` 10).
Proof.
  intros Hv. unfold getCubeColor, Math_floor_div.
  rewrite js_rem_mod by lia.
  destruct (Z.eqb_spec value 7); [lia|]. destruct (Z.eqb_spec value 9); [lia|].
  destruct (Z.leb_spec value 10); [lia|]. done.
Qed.

(** C3.  For [value > 10], with [tensCount = floor(value / 10) * 10] and
    [remainder = value mod 10]: every cube below [tensCount] is white
    ([#FFFFFF]) and is rendered with the red outline, and cube
    [tensCount + j], for [j] in [0, remainder), has the colour that a block
    of value [remainder] gives its cube [j]; so for 23 the cubes 20, 21, 22
    are coloured like the cubes 0, 1, 2 of a 3. *)
Theorem getCubeColor_tens_and_remainder (CUBE_SIZE CUBE_GAP : Z)
    (palette : Z → jsval) (value : Z) :
  10 < value →
  let tensCount := value `div` 10 * 10 in
  let remainder := value `mod` 10 in
  (∀ index total, index < tensCount →
     getCubeColor palette value index total = JStr "#FFFFFF")
  ∧ (∀ (i : nat) cube,
       NumberBlock CUBE_SIZE CUBE_GAP palette value !! i = Some cube →
       Z.of_nat i < tensCount →
       color cube = JStr "#FFFFFF" ∧ hasRedOutline cube = true
       ∧ Cube_border cube = Some "3px solid #FF0000"%string)
  ∧ (∀ j total total', 0 ≤ j < remainder →
       getCubeColor palette value (tensCount + j) total
       = getCubeColor palette remainder j total')
  ∧ (∀ j, 0 ≤ j < 3 →
       getCubeColor palette 23 (20 + j) 23 = getCubeColor palette 3 j 3).
Proof.
  intros Hv tensCount remainder.
  assert (Hwhite : ∀ index total, index < tensCount →
            getCubeColor palette value index total = JStr "#FFFFFF").
  { intros index total Hi. rewrite getCubeColor_above_ten by done.
    fold tensCount. destruct (Z.ltb_spec index tensCount); [done|lia]. }
  assert (Hrem : ∀ v j total total', 10 < v → 0 ≤ j < v `mod` 10 →
            getCubeColor palette v (v `div` 10 * 10 + j) total
            = getCubeColor palette (v `mod` 10) j total').
  { intros v j total total' Hv' Hj.
    rewrite getCubeColor_above_ten by done.
    pose proof (Z.mod_pos_bound v 10 ltac:(lia)) as Hr.
    destruct (Z.ltb_spec (v `div` 10 * 10 + j) (v `div` 10 * 10)); [lia|].
    replace (v `div` 10 * 10 + j - v `div` 10 * 10) with j by lia.
    unfold getCubeColor.
    destruct (Z.eqb_spec (v `mod` 10) 7); [done|].
    destruct (Z.eqb_spec (v `mod` 10) 9); [done|].
    destruct (Z.eqb_spec (v `mod` 10) 0); [lia|].
    destruct (Z.leb_spec (v `mod` 10) 10); [done|lia]. }
  split; [exact Hwhite|]. split; [|split].
  - intros i cube Hcube Hi.
    destruct (lookup_NumberBlock _ _ _ _ _ _ Hcube)
      as (_ & _ & _ & _ & _ & Hcolor & _).
    pose proof (lookup_NumberBlock_outline _ _ _ _ _ _ Hcube) as Hout.
    assert (hasRedOutline cube = true) as Hred.
    { rewrite Hout. unfold Math_floor_div.
      destruct (Z.leb_spec 10 value); [|lia]. fold tensCount.
      destruct (Z.ltb_spec (Z.of_nat i) tensCount); [|lia].
      by rewrite orb_true_r. }
    split; [by rewrite Hcolor, Hwhite|]. split; [done|].
    unfold Cube_border. by rewrite Hred.
  - intros j total total' Hj. by apply Hrem.
  - intros j Hj. apply (Hrem 23 j 23 3); [lia|]. by vm_compute.
Qed.

Lemma getCubeColor_tens_and_remainder_witness :
  10 < 23
  ∧ getCubeColor basePaletteColor 23 19 23 = JStr "#FFFFFF"
  ∧ getCubeColor basePaletteColor 23 (23 `div` 10 * 10 + 2) 23
    = getCubeColor basePaletteColor (23 `mod` 10) 2 3.
Proof.
  split; [lia|].
  destruct (getCubeColor_tens_and_remainder 40 4 basePaletteColor 23)
    as (Hwhite & _ & Hrem & _); [lia|].
  split; [apply Hwhite; by vm_compute|apply Hrem; by vm_compute].
Defined.

(** C4.  For value 7, cube [i] gets the palette colour of [i + 1].  The
    layout of 7 is one column in which a later index is higher on screen, so
    index 0 is the bottom cube (colour of 1) and index 6 the top cube (colour
    of 7).  With a colour function that agrees with the base palette the
    seven cubes show, bottom to top, Red, Orange, Yellow, Green, Cyan,
    Indigo, Violet: seven distinct colours. *)
Theorem getCubeColor_seven_rainbow (CUBE_SIZE CUBE_GAP : Z)
    (palette : Z → jsval) :
  (∀ i total, getCubeColor palette 7 i total = palette (i + 1))
  ∧ (∀ i : nat, (i < 7)%nat →
       getCubePositions CUBE_SIZE CUBE_GAP 7 !! i
       = Some (mkPosition 0 ((6 - Z.of_nat i) * (CUBE_SIZE + CUBE_GAP))))
  ∧ (0 < CUBE_SIZE + CUBE_GAP → ∀ (i j : nat) p q,
       getCubePositions CUBE_SIZE CUBE_GAP 7 !! i = Some p →
       getCubePositions CUBE_SIZE CUBE_GAP 7 !! j = Some q →
       (i < j)%nat → pos_y q < pos_y p)
  ∧ (agreesWithBasePalette palette →
       (λ i, getCubeColor palette 7 i 7) <$> seqZ 0 7
       = JStr <$> [ "Red"; "Orange"; "Yellow"; "Green"; "Cyan"; "Indigo";
                    "Violet" ]%string
       ∧ NoDup ((λ i, getCubeColor palette 7 i 7) <$> seqZ 0 7)).
Proof.
  assert (Hcol : ∀ i : nat, (i < 7)%nat →
            getCubePositions CUBE_SIZE CUBE_GAP 7 !! i
            = Some (mkPosition 0 ((6 - Z.of_nat i) * (CUBE_SIZE + CUBE_GAP)))).
  { intros i Hi. rewrite lookup_getCubePositions by lia.
    unfold gridCell, gridCols, gridRows. simpl.
    rewrite Z.mod_1_r, Z.div_1_r. repeat (f_equal; try lia). }
  split; [done|]. split; [exact Hcol|]. split.
  - intros Hp i j p q Hi Hj Hij.
    assert (j < 7)%nat.
    { apply lookup_lt_Some in Hj. rewrite length_getCubePositions in Hj. lia. }
    rewrite Hcol in Hi, Hj by lia.
    injection Hi as <-. injection Hj as <-. simpl. nia.
  - intros Hagree.
    assert (Heq : (λ i, getCubeColor palette 7 i 7) <$> seqZ 0 7
                  = JStr <$> [ "Red"; "Orange"; "Yellow"; "Green"; "Cyan";
                               "Indigo"; "Violet" ]%string).
    { vm_compute seqZ. simpl. unfold getCubeColor. simpl.
      repeat f_equal; apply Hagree; unfold basePalette;
        repeat (first [ apply list_elem_of_here | apply list_elem_of_further ]). }
    split; [exact Heq|]. rewrite Heq.
    apply NoDup_fmap_2; [by intros ?? [= ->]|].
    apply (bool_decide_unpack _). by vm_compute.
Qed.

Lemma getCubeColor_seven_rainbow_witness :
  agreesWithBasePalette basePaletteColor
  ∧ (getCubeColor basePaletteColor 7 0 7 = JStr "Red"
     ∧ getCubeColor basePaletteColor 7 6 7 = JStr "Violet")
  ∧ NoDup ((λ i, getCubeColor basePaletteColor 7 i 7) <$> seqZ 0 7).
Proof.
  assert (Hagree : agreesWithBasePalette basePaletteColor).
  { intros n c Hin. unfold basePalette in Hin.
    repeat (apply elem_of_cons in Hin as [[= -> ->]|Hin]; [reflexivity|]).
    by apply not_elem_of_nil in Hin. }
  split; [exact Hagree|].
  destruct (getCubeColor_seven_rainbow 40 4 basePaletteColor)
    as (Hcolor & _ & _ & Hdistinct).
  split; [split; rewrite Hcolor; reflexivity|].
  by apply Hdistinct.
Defined.

(** C5.  For value 9 the cubes 0, 1, 2 are [#D0D0D0], the cubes 3, 4, 5
    [#A0A0A0] and the cubes 6, 7, 8 [#606060]: three grays, of levels 208,
    160 and 96, the lightest first, and the table holds no other shade.
    In the 3x3 layout cube [i] lies in row [i / 3] counted from the bottom
    ([y = (2 - i / 3) * pitch]), so the lightest shade is the bottom row and
    the darkest the top row. *)
Theorem getCubeColor_nine_gray (CUBE_SIZE CUBE_GAP : Z) (palette : Z → jsval) :
  (∀ i total, 0 ≤ i < 3 → getCubeColor palette 9 i total = JStr "#D0D0D0")
  ∧ (∀ i total, 3 ≤ i < 6 → getCubeColor palette 9 i total = JStr "#A0A0A0")
  ∧ (∀ i total, 6 ≤ i < 9 → getCubeColor palette 9 i total = JStr "#606060")
  ∧ (grayLevel "#D0D0D0" = Some 208 ∧ grayLevel "#A0A0A0" = Some 160
     ∧ grayLevel "#606060" = Some 96)
  ∧ remove_dups NINE_GRAY_COLORS = [ "#D0D0D0"; "#A0A0A0"; "#606060" ]%string
  ∧ (∀ i : nat, (i < 9)%nat →
       getCubePositions CUBE_SIZE CUBE_GAP 9 !! i
       = Some (mkPosition ((Z.of_nat i `mod` 3) * (CUBE_SIZE + CUBE_GAP))
                          ((2 - Z.of_nat i `div` 3) * (CUBE_SIZE + CUBE_GAP)))).
Proof.
  assert (Hnine : ∀ i total, getCubeColor palette 9 i total
            = js_or (js_index NINE_GRAY_COLORS i) (JStr "#808080")) by done.
  repeat split.
  - intros i total Hi. rewrite Hnine.
    assert (i = 0 ∨ i = 1 ∨ i = 2) as [->|[->| ->]] by lia; reflexivity.
  - intros i total Hi. rewrite Hnine.
    assert (i = 3 ∨ i = 4 ∨ i = 5) as [->|[->| ->]] by lia; reflexivity.
  - intros i total Hi. rewrite Hnine.
    assert (i = 6 ∨ i = 7 ∨ i = 8) as [->|[->| ->]] by lia; reflexivity.
  - intros i Hi. rewrite lookup_getCubePositions by lia.
    unfold gridCell, gridCols, gridRows. simpl. repeat (f_equal; try lia).
Qed.

Lemma getCubeColor_nine_gray_witness :
  getCubeColor basePaletteColor 9 1 9 = JStr "#D0D0D0"
  ∧ getCubeColor basePaletteColor 9 4 9 = JStr "#A0A0A0"
  ∧ getCubeColor basePaletteColor 9 8 9 = JStr "#606060"
  ∧ getCubePositions 40 4 9 !! 8%nat = Some (mkPosition 88 0).
Proof.
  destruct (getCubeColor_nine_gray 40 4 basePaletteColor)
    as (Hlight & Hmid & Hdark & _ & _ & Hrow).
  split; [apply Hlight; lia|]. split; [apply Hmid; lia|].
  split; [apply Hdark; lia|]. rewrite Hrow by lia. reflexivity.
Defined.

(** The guarded read of the gray table: a shade inside the table, the
    fallback outside of it. *)
Lemma gray_or_fallback (i : Z) :
  (0 ≤ i < 9 →
     js_or (js_index NINE_GRAY_COLORS i) (JStr "#808080")
     ∈ JStr <$> [ "#D0D0D0"; "#A0A0A0"; "#606060" ]%string)
  ∧ (¬ (0 ≤ i < 9) →
     js_index NINE_GRAY_COLORS i = JUndefined
     ∧ js_or (js_index NINE_GRAY_COLORS i) (JStr "#808080") = JStr "#808080").
Proof.
  split.
  - intros Hi.
    assert (i = 0 ∨ i = 1 ∨ i = 2 ∨ i = 3 ∨ i = 4 ∨ i = 5 ∨ i = 6 ∨ i = 7
            ∨ i = 8) as Hcases by lia.
    repeat (destruct Hcases as [->|Hcases];
            [apply (bool_decide_unpack _); by vm_compute|]).
    subst i. apply (bool_decide_unpack _). by vm_compute.
  - intros Hi. unfold js_index.
    destruct (Z.ltb_spec i 0) as [Hneg|Hpos]; [done|].
    rewrite lookup_ge_None_2; [done|]. simpl. lia.
Qed.


(** Every return point of [getCubeColor]: a literal, the guarded table read,
    or a call of the colour function. *)
Lemma getCubeColor_cases (palette : Z → jsval) (value index total : Z) :
  getCubeColor palette value index total
  ∈ JStr <$> [ "#FFFFFF"; "#808080"; "#D0D0D0"; "#A0A0A0"; "#606060" ]%string
  ∨ ∃ n, getCubeColor palette value index total = palette n.
Proof.
  assert (Hgray : ∀ i, js_or (js_index NINE_GRAY_COLORS i) (JStr "#808080")
            ∈ JStr <$> [ "#FFFFFF"; "#808080"; "#D0D0D0"; "#A0A0A0";
                         "#606060" ]%string).
  { intros i. destruct (gray_or_fallback i) as [Hin Hout].
    destruct (decide (0 ≤ i < 9)) as [Hi|Hi].
    - specialize (Hin Hi). simpl in *.
      apply list_elem_of_further, list_elem_of_further. done.
    - destruct (Hout Hi) as [_ ->]. simpl.
      apply list_elem_of_further, list_elem_of_here. }
  unfold getCubeColor.
  repeat case_match; eauto; left; simpl; apply list_elem_of_here.
Qed.





(** ** Palette *)




(** Rounding decides at the boundary: from the origin to (50, 2^-24) the sum
    of the squares rounds to 2500, the distance is the double 50 and nothing
    is spawned; from 0.1 to 50.1 the difference is the double 50 as well. *)
Example handleDragEnd_rounding_boundary :
  dragDistance (mkPoint64 50 0x1p-24) (mkPoint64 0 0) = 50%float
  ∧ (handleDragEnd 40 3 (mkPoint64 50 0x1p-24) SpawnableBlock_init).2 = []
  ∧ (handleDragEnd 40 3 (mkPoint64 0x1.90ccccccccccdp+5 0)
       (mkSpawnableState true (mkPoint64 0x1.999999999999ap-4 0))).2 = [].
Proof. repeat split; by vm_compute. Qed.

(** * Further properties of the layout *)

(** The rows of a grid hold the cubes with no row to spare. *)
Lemma gridRows_spec (value : Z) :
  1 ≤ value →
  (gridRows value - 1) * gridCols value < value
  ∧ value ≤ gridRows value * gridCols value.
Proof.
  intros Hv. unfold gridRows, gridCols.
  destruct (Z.eqb_spec value 4); [lia|]. destruct (Z.eqb_spec value 7); [lia|].
  destruct (Z.eqb_spec value 9); [lia|]. destruct (Z.leb_spec value 5); [lia|].
  pose proof (layoutCols_pos value).
  pose proof (Math_ceil_div_spec value (layoutCols value) ltac:(lia)).
  unfold layoutRows. lia.
Qed.

(** The bottom row is never wider than the block has cubes. *)
Lemma gridCols_le (value : Z) : 1 ≤ value → gridCols value ≤ value.
Proof.
  intros Hv. unfold gridCols, layoutCols, Math_floor_div.
  destruct (Z.eqb_spec value 4); [lia|]. destruct (Z.eqb_spec value 7); [lia|].
  destruct (Z.eqb_spec value 9); [lia|]. destruct (Z.leb_spec value 5); [lia|].
  destruct (Z.leb_spec 30 value); [|lia].
  pose proof (Z.div_mod value 10 ltac:(lia)).
  pose proof (Z.mod_pos_bound value 10 ltac:(lia)). lia.
Qed.

(** Column and row of a cube inside the grid. *)
Lemma grid_coordinates (value i : Z) :
  1 ≤ value → 0 ≤ i < value →
  0 ≤ i `mod` gridCols value < gridCols value
  ∧ 0 ≤ i `div` gridCols value ≤ gridRows value - 1.
Proof.
  intros Hv Hi. pose proof (gridCols_pos value) as Hc.
  destruct (gridRows_spec value Hv) as [_ Hr].
  split; [apply Z.mod_pos_bound; lia|]. split.
  - apply Z.div_pos; lia.
  - assert (i `div` gridCols value < gridRows value); [|lia].
    apply Z.div_lt_upper_bound; lia.
Qed.

Lemma elem_of_getCubePositions (CUBE_SIZE CUBE_GAP value : Z) (p : Position) :
  p ∈ getCubePositions CUBE_SIZE CUBE_GAP value
  ↔ ∃ i, 0 ≤ i < value
      ∧ p = gridCell (CUBE_SIZE + CUBE_GAP) (gridCols value) (gridRows value) i.
Proof.
  rewrite getCubePositions_grid, list_elem_of_fmap.
  setoid_rewrite elem_of_seqZ. split.
  - intros (i & -> & Hi). exists i. split; [lia|done].
  - intros (i & Hi & ->). exists i. split; [done|lia].
Qed.

(** X1.  Without cubes to draw: for [value <= 0] no branch of
    [getCubePositions] pushes an offset, the block renders no cube, and the
    face index of the empty array is the initial 0 (an index no cube has). *)
Theorem getCubePositions_nonpositive (CUBE_SIZE CUBE_GAP : Z)
    (palette : Z → jsval) (value : Z) :
  value ≤ 0 →
  getCubePositions CUBE_SIZE CUBE_GAP value = []
  ∧ NumberBlock CUBE_SIZE CUBE_GAP palette value = []
  ∧ topCubeIndex (getCubePositions CUBE_SIZE CUBE_GAP value) = 0%nat.
Proof.
  intros Hv.
  assert (Hnil : getCubePositions CUBE_SIZE CUBE_GAP value = []).
  { rewrite getCubePositions_grid. by rewrite seqZ_nil by lia. }
  split; [done|]. unfold NumberBlock. cbv zeta. rewrite Hnil. done.
Qed.

Lemma getCubePositions_nonpositive_witness :
  (-3 ≤ 0)
  ∧ getCubePositions 40 4 (-3) = []
  ∧ NumberBlock 40 4 basePaletteColor 0 = [].
Proof.
  split; [lia|]. split.
  - by apply (getCubePositions_nonpositive 40 4 basePaletteColor (-3)).
  - by apply (getCubePositions_nonpositive 40 4 basePaletteColor 0).
Defined.

(** X2.  The bounding box of a block: with a positive pitch every offset lies
    in [0, (cols - 1) * pitch] x [0, (rows - 1) * pitch], and both bottom
    corners are occupied - cube 0 at the bottom left and cube [cols - 1] at
    the bottom right - so the bottom row is always full. *)
Theorem getCubePositions_bounding_box (CUBE_SIZE CUBE_GAP value : Z) :
  0 < CUBE_SIZE + CUBE_GAP → 1 ≤ value →
  let pitch := CUBE_SIZE + CUBE_GAP in
  let layout := getCubePositions CUBE_SIZE CUBE_GAP value in
  (∀ p, p ∈ layout →
     0 ≤ pos_x p ≤ (gridCols value - 1) * pitch
     ∧ 0 ≤ pos_y p ≤ (gridRows value - 1) * pitch)
  ∧ layout !! 0%nat = Some (mkPosition 0 ((gridRows value - 1) * pitch))
  ∧ layout !! Z.to_nat (gridCols value - 1)
    = Some (mkPosition ((gridCols value - 1) * pitch)
                       ((gridRows value - 1) * pitch)).
Proof.
  intros Hp Hv pitch layout. subst pitch layout.
  pose proof (gridCols_pos value) as Hc.
  pose proof (gridCols_le value Hv) as Hcv.
  split; [|split].
  - intros p (i & Hi & ->)%elem_of_getCubePositions.
    destruct (grid_coordinates value i Hv Hi) as [Hcol Hrow].
    unfold gridCell. simpl. nia.
  - rewrite lookup_getCubePositions by lia. unfold gridCell. simpl.
    rewrite Z.mod_0_l, Z.div_0_l by lia. repeat (f_equal; try lia).
  - rewrite lookup_getCubePositions by lia. unfold gridCell.
    rewrite Z2Nat.id by lia.
    rewrite Z.mod_small, Z.div_small by lia. repeat (f_equal; try lia).
Qed.

Lemma getCubePositions_bounding_box_witness :
  (0 < 40 + 4 ∧ 1 ≤ 35)
  ∧ getCubePositions 40 4 35 !! 0%nat = Some (mkPosition 0 484)
  ∧ getCubePositions 40 4 35 !! 2%nat = Some (mkPosition 88 484).
Proof.
  split; [lia|].
  destruct (getCubePositions_bounding_box 40 4 35) as (_ & Hbl & Hbr);
    [lia|lia|].
  split; [exact Hbl|exact Hbr].
Defined.

(** X3.  No cube floats and no row has a gap: a cube that is not in the
    bottom row has a cube directly below it, and a cube that is not in the
    leftmost column has a cube directly to its left. *)
Theorem getCubePositions_supported (CUBE_SIZE CUBE_GAP value : Z)
    (p : Position) :
  p ∈ getCubePositions CUBE_SIZE CUBE_GAP value →
  let pitch := CUBE_SIZE + CUBE_GAP in
  (pos_y p ≠ (gridRows value - 1) * pitch →
     mkPosition (pos_x p) (pos_y p + pitch)
     ∈ getCubePositions CUBE_SIZE CUBE_GAP value)
  ∧ (pos_x p ≠ 0 →
     mkPosition (pos_x p - pitch) (pos_y p)
     ∈ getCubePositions CUBE_SIZE CUBE_GAP value).
Proof.
  intros (i & Hi & ->)%elem_of_getCubePositions pitch. subst pitch.
  pose proof (gridCols_pos value) as Hc.
  pose proof (Z.div_mod i (gridCols value) ltac:(lia)) as Hdm.
  pose proof (Z.mod_pos_bound i (gridCols value) ltac:(lia)) as Hm.
  unfold gridCell. simpl. split.
  - intros Hrow.
    assert (i `div` gridCols value ≠ 0) as Hd by (intros E; rewrite E in Hrow; lia).
    assert (0 ≤ i `div` gridCols value) by (apply Z.div_pos; lia).
    apply elem_of_getCubePositions. exists (i - gridCols value).
    split; [nia|]. unfold gridCell.
    replace (i - gridCols value) with (i + (-1) * gridCols value) by lia.
    rewrite Z.mod_add, Z.div_add by lia. f_equal; lia.
  - intros Hcol.
    assert (i `mod` gridCols value ≠ 0) as Hd by (intros E; rewrite E in Hcol; lia).
    assert (i ≠ 0) as Hi0 by (intros ->; by rewrite Z.mod_0_l in Hd by lia).
    apply elem_of_getCubePositions. exists (i - 1).
    split; [lia|]. unfold gridCell.
    assert ((i - 1) `div` gridCols value = i `div` gridCols value) as ->.
    { symmetry. apply (Z.div_unique _ _ _ (i `mod` gridCols value - 1)); lia. }
    assert ((i - 1) `mod` gridCols value = i `mod` gridCols value - 1) as ->.
    { symmetry. apply (Z.mod_unique _ _ (i `div` gridCols value)); lia. }
    f_equal; lia.
Qed.

Lemma getCubePositions_supported_witness :
  mkPosition 44 44 ∈ getCubePositions 40 4 8
  ∧ mkPosition 44 88 ∈ getCubePositions 40 4 8
  ∧ mkPosition 0 44 ∈ getCubePositions 40 4 8.
Proof.
  assert (Hin : mkPosition 44 44 ∈ getCubePositions 40 4 8)
    by (apply (bool_decide_unpack _); by vm_compute).
  split; [exact Hin|].
  destruct (getCubePositions_supported 40 4 8 _ Hin) as [Hbelow Hleft].
  split; [apply Hbelow; by vm_compute|apply Hleft; by vm_compute].
Defined.

(** * Further properties of the face cube and the outline *)

(** In a layout the [reduce] ends on the first cube of the top row. *)
Lemma topCubeIndex_getCubePositions (CUBE_SIZE CUBE_GAP value : Z) :
  0 < CUBE_SIZE + CUBE_GAP → 1 ≤ value →
  Z.of_nat (topCubeIndex (getCubePositions CUBE_SIZE CUBE_GAP value))
  = (gridRows value - 1) * gridCols value.
Proof.
  intros Hp Hv.
  set (arr := getCubePositions CUBE_SIZE CUBE_GAP value).
  pose proof (gridCols_pos value) as Hc.
  destruct (gridRows_spec value Hv) as [Hlo Hhi].
  assert (Hrows : 1 ≤ gridRows value) by nia.
  assert (Hlen : length arr = Z.to_nat value) by apply length_getCubePositions.
  assert (Hne : arr ≠ []) by (intros E; rewrite E in Hlen; simpl in Hlen; lia).
  assert (Hnd : NoDup arr) by (apply NoDup_getCubePositions; lia).
  destruct (topCubeIndex_spec arr Hne) as (Hlt & _ & _).
  set (m0 := Z.to_nat ((gridRows value - 1) * gridCols value)).
  assert (Hm0 : arr !! m0 = Some (mkPosition 0 0)).
  { unfold arr, m0. rewrite lookup_getCubePositions by lia.
    rewrite Z2Nat.id by nia. unfold gridCell.
    rewrite Z.mod_mul, Z.div_mul by lia. repeat (f_equal; try lia). }
  destruct (decide (topCubeIndex arr = m0)) as [->|Hdiff];
    [unfold m0; rewrite Z2Nat.id by nia; done|].
  exfalso.
  pose proof (topCubeIndex_strict arr Hne Hnd m0 _ Hm0 ltac:(done)) as Hstrict.
  assert (Htop : arr !! topCubeIndex arr
            = Some (gridCell (CUBE_SIZE + CUBE_GAP) (gridCols value)
                      (gridRows value) (Z.of_nat (topCubeIndex arr)))).
  { unfold arr. apply lookup_getCubePositions. fold arr. lia. }
  rewrite (list_lookup_total_correct _ _ _ Htop) in Hstrict.
  destruct (grid_coordinates value (Z.of_nat (topCubeIndex arr)) Hv ltac:(lia))
    as [Hcol Hrow].
  unfold topLeftOf, gridCell in Hstrict. simpl in Hstrict. nia.
Qed.

(** X4.  The face always sits in the top-left corner of the block: with a
    positive pitch and [value >= 1] the face cube is the first cube of the
    top row, index [(rows - 1) * cols], at offset (0, 0); the top row is made
    of the cubes from that index on, at least one and at most [cols]. *)
Theorem face_cube_top_left_corner (CUBE_SIZE CUBE_GAP value : Z) :
  0 < CUBE_SIZE + CUBE_GAP → 1 ≤ value →
  let layout := getCubePositions CUBE_SIZE CUBE_GAP value in
  let top := topCubeIndex layout in
  Z.of_nat top = (gridRows value - 1) * gridCols value
  ∧ layout !! top = Some (mkPosition 0 0)
  ∧ (∀ (i : nat) p, layout !! i = Some p → (pos_y p = 0 ↔ (top ≤ i)%nat))
  ∧ 1 ≤ value - Z.of_nat top ≤ gridCols value.
Proof.
  intros Hp Hv layout top. subst layout top.
  pose proof (topCubeIndex_getCubePositions CUBE_SIZE CUBE_GAP value Hp Hv)
    as Htop.
  pose proof (gridCols_pos value) as Hc.
  destruct (gridRows_spec value Hv) as [Hlo Hhi].
  split; [done|]. split; [|split; [|lia]].
  - rewrite lookup_getCubePositions by lia. rewrite Htop. unfold gridCell.
    rewrite Z.mod_mul, Z.div_mul by lia. repeat (f_equal; try lia).
  - intros i p Hi.
    assert (Z.of_nat i < value) as Hiv.
    { apply lookup_lt_Some in Hi. rewrite length_getCubePositions in Hi. lia. }
    rewrite lookup_getCubePositions in Hi by done. injection Hi as <-.
    destruct (grid_coordinates value (Z.of_nat i) Hv ltac:(lia)) as [Hcol Hrow].
    pose proof (Z.div_mod (Z.of_nat i) (gridCols value) ltac:(lia)) as Hdm.
    unfold gridCell. simpl. split.
    + intros Hy. assert (Z.of_nat i `div` gridCols value = gridRows value - 1)
        by nia. nia.
    + intros Hle.
      assert (gridRows value - 1 ≤ Z.of_nat i `div` gridCols value).
      { apply Z.div_le_lower_bound; lia. }
      assert (Z.of_nat i `div` gridCols value = gridRows value - 1) as -> by lia.
      lia.
Qed.

Lemma face_cube_top_left_corner_witness :
  (0 < 40 + 4 ∧ 1 ≤ 35)
  ∧ Z.of_nat (topCubeIndex (getCubePositions 40 4 35)) = 33
  ∧ getCubePositions 40 4 35 !! topCubeIndex (getCubePositions 40 4 35)
    = Some (mkPosition 0 0).
Proof.
  split; [lia|].
  destruct (face_cube_top_left_corner 40 4 35) as (Htop & Hpos & _);
    [lia|lia|].
  split; [rewrite Htop; reflexivity|exact Hpos].
Defined.

(** The colour of a remainder cube is that of the smaller block, whatever
    the local index. *)
Lemma getCubeColor_remainder (palette : Z → jsval) (value j total total' : Z) :
  10 < value → value `mod` 10 ≠ 0 → 0 ≤ j →
  getCubeColor palette value (value `div` 10 * 10 + j) total
  = getCubeColor palette (value `mod` 10) j total'.
Proof.
  intros Hv Hr Hj. rewrite getCubeColor_above_ten by done.
  pose proof (Z.mod_pos_bound value 10 ltac:(lia)) as Hb.
  destruct (Z.ltb_spec (value `div` 10 * 10 + j) (value `div` 10 * 10)); [lia|].
  replace (value `div` 10 * 10 + j - value `div` 10 * 10) with j by lia.
  unfold getCubeColor.
  destruct (Z.eqb_spec (value `mod` 10) 7); [done|].
  destruct (Z.eqb_spec (value `mod` 10) 9); [done|].
  destruct (Z.eqb_spec (value `mod` 10) 0); [lia|].
  destruct (Z.leb_spec (value `mod` 10) 10); [done|lia].
Qed.

(** X5.  Above 10 the face is on the top-left remainder cube: when
    [value mod 10] is not 0 the face cube lies at or after [tensCount], so it
    has no red outline and takes the colour the block of value
    [value mod 10] gives its cube [top - tensCount]; when [value] is a
    multiple of 10 the face cube is white and outlined. *)
Theorem face_cube_above_ten (CUBE_SIZE CUBE_GAP : Z) (palette : Z → jsval)
    (value : Z) :
  0 < CUBE_SIZE + CUBE_GAP → 10 < value →
  let tensCount := value `div` 10 * 10 in
  ∃ (top : nat) face,
    NumberBlock CUBE_SIZE CUBE_GAP palette value !! top = Some face
    ∧ hasFace face = true
    ∧ (value `mod` 10 ≠ 0 →
         tensCount ≤ Z.of_nat top
         ∧ hasRedOutline face = false
         ∧ ∀ total,
             color face
             = getCubeColor palette (value `mod` 10)
                 (Z.of_nat top - tensCount) total)
    ∧ (value `mod` 10 = 0 →
         hasRedOutline face = true ∧ color face = JStr "#FFFFFF").
Proof.
  intros Hp Hv tensCount.
  pose proof (topCubeIndex_getCubePositions CUBE_SIZE CUBE_GAP value Hp
                ltac:(lia)) as Htop.
  set (top := topCubeIndex (getCubePositions CUBE_SIZE CUBE_GAP value)) in *.
  destruct (gridRows_spec value ltac:(lia)) as [Hlo Hhi].
  assert (Hgrid : gridCols value = layoutCols value).
  { unfold gridCols.
    destruct (Z.eqb_spec value 4); [lia|]. destruct (Z.eqb_spec value 7); [lia|].
    destruct (Z.eqb_spec value 9); [lia|]. destruct (Z.leb_spec value 5); [lia|].
    done. }
  pose proof (Z.div_mod value 10 ltac:(lia)) as Hdm.
  pose proof (Z.mod_pos_bound value 10 ltac:(lia)) as Hr.
  assert (Hlt : Z.of_nat top < value) by lia.
  destruct (lookup_lt_is_Some_2
              (NumberBlock CUBE_SIZE CUBE_GAP palette value) top)
    as [face Hface].
  { unfold NumberBlock. cbv zeta. rewrite length_imap, length_getCubePositions.
    lia. }
  exists top, face. split; [done|].
  destruct (lookup_NumberBlock _ _ _ _ _ _ Hface)
    as (_ & _ & _ & _ & Hf & Hcolor & _).
  pose proof (lookup_NumberBlock_outline _ _ _ _ _ _ Hface) as Hout.
  split; [rewrite Hf; by apply bool_decide_eq_true|].
  unfold Math_floor_div in Hout. rewrite js_rem_mod in Hout by lia.
  destruct (Z.leb_spec 10 value); [|lia]. simpl in Hout. split.
  - intros Hrem.
    assert (Htens : tensCount ≤ Z.of_nat top).
    { subst tensCount. rewrite Htop. rewrite Hgrid in *.
      unfold layoutCols, Math_floor_div in *.
      destruct (Z.leb_spec 30 value) as [Hbig|Hsmall]; [|lia].
      assert (3 ≤ value `div` 10) by (apply Z.div_le_lower_bound; lia).
      assert (10 < gridRows value).
      { destruct (Z.le_gt_cases (gridRows value) 10) as [Hle|]; [|lia].
        pose proof (Z.mul_le_mono_nonneg_r _ _ (value `div` 10)
                      ltac:(lia) Hle). lia. }
      rewrite (Z.mul_comm (value `div` 10) 10).
      apply Z.mul_le_mono_nonneg_r; lia. }
    split; [done|]. split.
    + rewrite Hout.
      destruct (Z.eqb_spec (value `mod` 10) 0); [done|].
      destruct (Z.ltb_spec (Z.of_nat top) (value `div` 10 * 10)); [|done].
      subst tensCount. lia.
    + intros total. rewrite Hcolor.
      replace (Z.of_nat top) with (tensCount + (Z.of_nat top - tensCount))
        at 1 by lia.
      apply getCubeColor_remainder; [done|done|lia].
  - intros Hrem. split.
    + rewrite Hout. by rewrite Hrem.
    + rewrite Hcolor, getCubeColor_above_ten by done.
      destruct (Z.ltb_spec (Z.of_nat top) (value `div` 10 * 10)); [done|lia].
Qed.

Lemma face_cube_above_ten_witness :
  (0 < 40 + 4 ∧ 10 < 17)
  ∧ ∃ (top : nat) face,
      NumberBlock 40 4 basePaletteColor 17 !! top = Some face
      ∧ hasFace face = true ∧ hasRedOutline face = false
      ∧ color face = getCubeColor basePaletteColor 7 (Z.of_nat top - 10) 7.
Proof.
  split; [lia|].
  destruct (face_cube_above_ten 40 4 basePaletteColor 17)
    as (top & face & Hface & Hf & Hrem & _); [lia|lia|].
  destruct Hrem as (_ & Hout & Hcolor); [by vm_compute|].
  exists top, face. split; [done|]. split; [done|]. split; [done|].
  apply Hcolor.
Defined.

(** X6.  The red outline marks the tens portion and nothing else: a rendered
    cube is outlined exactly when its index is below
    [floor(value / 10) * 10].  (For a multiple of ten that is every cube; the
    test [value % 10 === 0] adds no cube to those the index test selects.)
    Listed in rendering order the flags are [tensCount] times true, then
    false for the remainder cubes. *)
Theorem NumberBlock_outline_tens (CUBE_SIZE CUBE_GAP : Z) (palette : Z → jsval)
    (value : Z) :
  let cubes := NumberBlock CUBE_SIZE CUBE_GAP palette value in
  let tensCount := value `div` 10 * 10 in
  (∀ (i : nat) cube, cubes !! i = Some cube →
     (hasRedOutline cube = true ↔ Z.of_nat i < tensCount))
  ∧ (1 ≤ value →
     hasRedOutline <$> cubes
     = replicate (Z.to_nat tensCount) true
       ++ replicate (Z.to_nat (value - tensCount)) false).
Proof.
  intros cubes tensCount. subst cubes.
  assert (Hiff : ∀ (i : nat) cube,
            NumberBlock CUBE_SIZE CUBE_GAP palette value !! i = Some cube →
            (hasRedOutline cube = true ↔ Z.of_nat i < tensCount)).
  { intros i cube Hcube.
    pose proof (lookup_NumberBlock_outline _ _ _ _ _ _ Hcube) as Hout.
    assert (Z.of_nat i < value) as Hi.
    { apply lookup_lt_Some in Hcube. unfold NumberBlock in Hcube.
      cbv zeta in Hcube.
      rewrite length_imap, length_getCubePositions in Hcube. lia. }
    pose proof (Z.div_mod value 10 ltac:(lia)) as Hdm.
    pose proof (Z.mod_pos_bound value 10 ltac:(lia)) as Hr.
    unfold Math_floor_div in Hout. rewrite js_rem_mod in Hout by lia.
    rewrite Hout. subst tensCount.
    destruct (Z.leb_spec 10 value) as [Hten|Hten]; simpl.
    - destruct (Z.eqb_spec (value `mod` 10) 0) as [H0|H0]; simpl; [lia|].
      destruct (Z.ltb_spec (Z.of_nat i) (value `div` 10 * 10)); [done|].
      split; [done|lia].
    - rewrite Z.div_small by lia. split; [done|lia]. }
  split; [exact Hiff|]. intros Hv.
  assert (Htens : 0 ≤ tensCount ≤ value).
  { subst tensCount. pose proof (Z.div_mod value 10 ltac:(lia)).
    pose proof (Z.mod_pos_bound value 10 ltac:(lia)).
    assert (0 ≤ value `div` 10) by (apply Z.div_pos; lia). lia. }
  assert (Hlen : length (NumberBlock CUBE_SIZE CUBE_GAP palette value)
                 = Z.to_nat value).
  { unfold NumberBlock. cbv zeta. by rewrite length_imap, length_getCubePositions. }
  apply list_eq. intros i. rewrite list_lookup_fmap.
  destruct (NumberBlock CUBE_SIZE CUBE_GAP palette value !! i) as [cube|] eqn:Hcube.
  - pose proof (Hiff i cube Hcube) as Hi.
    apply lookup_lt_Some in Hcube as Hlt. rewrite Hlen in Hlt. simpl.
    destruct (decide (Z.of_nat i < tensCount)) as [Hin|Hout].
    + rewrite lookup_app_l by (rewrite length_replicate; lia).
      rewrite lookup_replicate_2 by lia. f_equal. by apply Hi.
    + rewrite lookup_app_r by (rewrite length_replicate; lia).
      rewrite length_replicate, lookup_replicate_2 by lia. f_equal.
      destruct (hasRedOutline cube); [|done]. exfalso. apply Hout. by apply Hi.
  - apply lookup_ge_None in Hcube. rewrite Hlen in Hcube. simpl. symmetry.
    apply lookup_ge_None. rewrite length_app, !length_replicate. lia.
Qed.

Lemma NumberBlock_outline_tens_witness :
  1 ≤ 23
  ∧ hasRedOutline <$> NumberBlock 40 4 basePaletteColor 23
    = replicate 20 true ++ replicate 3 false.
Proof.
  split; [lia|].
  destruct (NumberBlock_outline_tens 40 4 basePaletteColor 23) as [_ Hflags].
  rewrite Hflags by lia. reflexivity.
Defined.

(** X7.  The face [reduce] on an arbitrary array of positions, gaps and
    repeated offsets included: on the empty array the result is the initial
    0; otherwise it is an index of the array whose position no other
    position is above (or level with and left of), and among several such
    positions it is the first. *)
Theorem topCubeIndex_first_minimum (arr : list Position) :
  (arr = [] → topCubeIndex arr = 0%nat)
  ∧ (arr ≠ [] →
     (topCubeIndex arr < length arr)%nat
     ∧ ∀ (j : nat) p, arr !! j = Some p →
         ¬ topLeftOf p (arr !!! topCubeIndex arr)
         ∧ ((j < topCubeIndex arr)%nat → topLeftOf (arr !!! topCubeIndex arr) p)).
Proof.
  split; [by intros ->|]. intros Hne.
  destruct (topCubeIndex_spec arr Hne) as (Hlt & Hmin & Hfirst).
  split; [done|]. intros j p Hp. split; [by eapply Hmin|].
  intros Hj. by eapply Hfirst.
Qed.

Lemma topCubeIndex_first_minimum_witness :
  [ mkPosition 5 0; mkPosition 0 0; mkPosition 0 0 ] ≠ []
  ∧ topCubeIndex [ mkPosition 5 0; mkPosition 0 0; mkPosition 0 0 ] = 1%nat
  ∧ ¬ topLeftOf (mkPosition 0 0)
        ([ mkPosition 5 0; mkPosition 0 0; mkPosition 0 0 ]
           !!! topCubeIndex [ mkPosition 5 0; mkPosition 0 0; mkPosition 0 0 ]).
Proof.
  split; [done|]. split; [reflexivity|].
  destruct (topCubeIndex_first_minimum
              [ mkPosition 5 0; mkPosition 0 0; mkPosition 0 0 ])
    as [_ Hne].
  destruct Hne as [_ Hmin]; [done|].
  by apply (Hmin 2%nat (mkPosition 0 0)).
Defined.

(** * Further properties of the palette *)

(** X8.  The palette preview and the canvas agree on the eyes: for every
    value the face of a [SpawnableBlock] shows the eyes that the face cube of
    a [NumberBlock] of the same value shows, in the same order. *)
Theorem SpawnableBlock_eyes_match_face_cube (CUBE_SIZE CUBE_GAP : Z)
    (palette : Z → jsval) (value : Z) (i : nat) (cube : CubeProps) :
  NumberBlock CUBE_SIZE CUBE_GAP palette value !! i = Some cube →
  hasFace cube = true →
  Cube_eyes cube = SpawnableBlock_eyes value.
Proof.
  intros Hcube Hface.
  destruct (lookup_NumberBlock _ _ _ _ _ _ Hcube)
    as (_ & _ & _ & _ & _ & _ & Hcount & Hstar).
  unfold Cube_eyes, SpawnableBlock_eyes.
  rewrite Hface, Hcount, Hstar. unfold eyeCountOf, starEyesOf.
  destruct (Z.eqb_spec value 1) as [->|H1]; [done|].
  destruct (Z.eqb_spec value 5) as [->|H5]; [done|].
  destruct (Z.eqb_spec value 10) as [->|H10]; done.
Qed.

Lemma SpawnableBlock_eyes_match_face_cube_witness :
  ∃ cube,
    NumberBlock 40 4 basePaletteColor 10 !! 8%nat = Some cube
    ∧ hasFace cube = true
    ∧ Cube_eyes cube = SpawnableBlock_eyes 10.
Proof.
  destruct (NumberBlock 40 4 basePaletteColor 10 !! 8%nat) as [cube|] eqn:Hcube;
    [|vm_compute in Hcube; discriminate].
  exists cube. split; [done|].
  assert (Hface : hasFace cube = true)
    by (vm_compute in Hcube; injection Hcube as <-; reflexivity).
  split; [done|].
  exact (SpawnableBlock_eyes_match_face_cube 40 4 basePaletteColor 10 8 cube
           Hcube Hface).
Defined.

(** X9.  The two rows of the palette show the first ten values, in order and
    once each: nothing is lost when at most ten values are given, values
    past the tenth are not shown, no row holds more than five blocks, and
    the bottom row is rendered exactly when more than five values are
    given. *)
Theorem Mirror_rows (values : list Z) :
  concat (Mirror values) = take 10 values
  ∧ ((length values ≤ 10)%nat → concat (Mirror values) = values)
  ∧ Forall (λ row, (length row ≤ 5)%nat) (Mirror values)
  ∧ (length (Mirror values) = 2%nat ↔ (5 < length values)%nat)
  ∧ Mirror Mirror_default_values = [ [1; 2; 3; 4; 5]; [6; 7; 8; 9; 10] ].
Proof.
  assert (Hcat : concat (Mirror values) = take 10 values).
  { unfold Mirror, js_slice. cbv zeta. simpl.
    replace (take 10 values) with (take 5 values ++ take 5 (drop 5 values))
      by apply (take_take_drop values 5 5).
    destruct (0 <? length (take 5 (drop 5 values)))%nat eqn:Hb; simpl.
    - by rewrite app_nil_r.
    - apply Nat.ltb_ge in Hb.
      destruct (take 5 (drop 5 values)); [by rewrite !app_nil_r|simpl in Hb; lia]. }
  split; [exact Hcat|]. split; [|split; [|split]].
  - intros Hlen. rewrite Hcat. by apply take_ge.
  - unfold Mirror, js_slice. cbv zeta. simpl.
    constructor.
    + rewrite length_take. lia.
    + destruct (0 <? length (take 5 (drop 5 values)))%nat; [|done].
      apply Forall_singleton. rewrite length_take. lia.
  - unfold Mirror, js_slice. cbv zeta. simpl.
    destruct (0 <? length (take 5 (drop 5 values)))%nat eqn:Hb; simpl.
    + apply Nat.ltb_lt in Hb. rewrite length_take, length_drop in Hb.
      split; [lia|done].
    + apply Nat.ltb_ge in Hb. rewrite length_take, length_drop in Hb.
      split; [done|lia].
  - reflexivity.
Qed.

Lemma Mirror_rows_witness :
  (length [7; 3; 9] ≤ 10)%nat
  ∧ concat (Mirror [7; 3; 9]) = [7; 3; 9]
  ∧ concat (Mirror [1; 2; 3; 4; 5; 6; 7; 8; 9; 10; 11; 12])
    = [1; 2; 3; 4; 5; 6; 7; 8; 9; 10].
Proof.
  split; [simpl; lia|]. split.
  - destruct (Mirror_rows [7; 3; 9]) as (_ & Hall & _). apply Hall. simpl. lia.
  - destruct (Mirror_rows [1; 2; 3; 4; 5; 6; 7; 8; 9; 10; 11; 12]) as (Hcat & _).
    rewrite Hcat. reflexivity.
Defined.

(** X11.  One palette drag does not depend on the drags before it: once
    [handleDragStart] has read the element's rectangle, the release is judged
    and the state left by [handleDragEnd] is the same from whatever state the
    drag began; the release always ends the dragging state and keeps the
    recorded start.  Without an element ([elementRef.current] null) the start
    of the previous drag stays in use - on a fresh block the origin, so that
    the release is judged by its distance from (0, 0). *)
Theorem SpawnableBlock_drag_cycle (CUBE_SIZE : float) (value : Z)
    (rect : DOMRect) (point : Point64) (st st' : SpawnableState) :
  handleDragEnd CUBE_SIZE value point (handleDragStart (Some rect) st)
  = handleDragEnd CUBE_SIZE value point (handleDragStart (Some rect) st')
  ∧ isDragging (handleDragStart (Some rect) st) = true
  ∧ (handleDragEnd CUBE_SIZE value point (handleDragStart (Some rect) st)).1
    = mkSpawnableState false (mkPoint64 (rect_left rect) (rect_top rect))
  ∧ (handleDragEnd CUBE_SIZE value point (handleDragStart None st)).2
    = (handleDragEnd CUBE_SIZE value point st).2
  ∧ ((handleDragEnd CUBE_SIZE value point
        (handleDragStart None SpawnableBlock_init)).2 ≠ []
     ↔ PrimFloat.ltb 50 (dragDistance point (mkPoint64 0 0)) = true).
Proof.
  split; [done|]. split; [done|]. split; [|split; [done|]].
  - unfold handleDragEnd. by destruct (PrimFloat.ltb _ _).
  - unfold handleDragEnd. simpl.
    destruct (PrimFloat.ltb 50 (dragDistance point (mkPoint64 0 0))); simpl;
      by split.
Qed.

(** * Properties of the block's pointer handlers *)

Section BlockDragProperties.

Import BlockDrag.

Variable props : Props.

(** Only [DragStart] writes the ref. *)
Lemma run_keeps_dragStartPos (es : list Event) (st : State) :
  DragStart ∉ es → dragStartPos (run props es st).1 = dragStartPos st.
Proof.
  revert st. induction es as [|e es IH]; intros st Hno; [done|].
  apply not_elem_of_cons in Hno as [He Hes]. simpl.
  destruct (step props e st) as [st1 calls1] eqn:Hstep.
  specialize (IH st1 Hes).
  destruct (run props es st1) as [st2 calls2]. simpl in *.
  rewrite IH. destruct e; simpl in Hstep; try done;
    injection Hstep as <- _; done.
Qed.

Lemma run_calls (es : list Event) (st : State) (call : Call) :
  DragStart ∉ es → call ∈ (run props es st).2 →
  match call with
  | call_onDragStart _ => False
  | call_onDrag i p =>
      i = id props
      ∧ ∃ offset, Drag offset ∈ es ∧ p = offsetBy (dragStartPos st) offset
  | call_onDragEnd i p =>
      i = id props
      ∧ ∃ offset, DragEnd offset ∈ es ∧ p = offsetBy (dragStartPos st) offset
  | call_onRightClick i v p =>
      i = id props ∧ v = value props ∧ (1 < v)%Z ∧ ContextMenu p ∈ es
  end.
Proof.
  revert st. induction es as [|e es IH]; intros st Hno Hin.
  { simpl in Hin. by apply elem_of_nil in Hin. }
  apply not_elem_of_cons in Hno as [He Hes]. simpl in Hin.
  destruct (step props e st) as [st1 calls1] eqn:Hstep.
  pose proof (run_keeps_dragStartPos [e] st) as Hkeep.
  simpl in Hkeep. rewrite Hstep in Hkeep. simpl in Hkeep.
  specialize (Hkeep ltac:(by apply not_elem_of_cons; split;
                           [|apply not_elem_of_nil])).
  specialize (IH st1 Hes).
  destruct (run props es st1) as [st2 calls2]. simpl in *.
  apply elem_of_app in Hin as [Hin|Hin].
  - destruct e; simpl in Hstep; try done; injection Hstep as <- <-.
    + by apply elem_of_nil in Hin.
    + destruct (onDrag props); [|by apply elem_of_nil in Hin].
      apply list_elem_of_singleton in Hin as ->.
      split; [done|]. exists offset. split; [apply list_elem_of_here|done].
    + destruct (onDragEnd props); [|by apply elem_of_nil in Hin].
      apply list_elem_of_singleton in Hin as ->.
      split; [done|]. exists offset. split; [apply list_elem_of_here|done].
    + destruct (Z.ltb_spec 1 (value props)); simpl in Hin;
        [|by apply elem_of_nil in Hin].
      destruct (onRightClick props); [|by apply elem_of_nil in Hin].
      apply list_elem_of_singleton in Hin as ->.
      repeat split; [done|apply list_elem_of_here].
  - specialize (IH Hin). rewrite Hkeep in IH.
    destruct call; try done.
    + destruct IH as (? & offset & ? & ?). split; [done|].
      exists offset. split; [by apply list_elem_of_further|done].
    + destruct IH as (? & offset & ? & ?). split; [done|].
      exists offset. split; [by apply list_elem_of_further|done].
    + destruct IH as (? & ? & ? & ?).
      repeat split; [done..|by apply list_elem_of_further].
Qed.

End BlockDragProperties.

(** X12.  During one drag gesture the reported positions do not drift: after
    a drag start taken at position prop [P], whatever renders with new
    position props, drag moves, releases and context-menu events follow
    (short of another drag start), every [onDrag] call carries this block's
    id and [P] plus the offset of one of the drag moves, every [onDragEnd]
    call [P] plus the offset of one of the releases, and the ref still holds
    [P] at the end. *)
Theorem BlockDrag_gesture_positions (props : BlockDrag.Props)
    (es : list BlockDrag.Event) (st : BlockDrag.State) :
  BlockDrag.DragStart ∉ es →
  let result := BlockDrag.run props (BlockDrag.DragStart :: es) st in
  BlockDrag.dragStartPos result.1 = BlockDrag.position st
  ∧ ∀ i p,
      (BlockDrag.call_onDrag i p ∈ result.2 →
         i = BlockDrag.id props
         ∧ ∃ offset, BlockDrag.Drag offset ∈ es
             ∧ p = BlockDrag.offsetBy (BlockDrag.position st) offset)
      ∧ (BlockDrag.call_onDragEnd i p ∈ result.2 →
         i = BlockDrag.id props
         ∧ ∃ offset, BlockDrag.DragEnd offset ∈ es
             ∧ p = BlockDrag.offsetBy (BlockDrag.position st) offset).
Proof.
  intros Hno result. subst result. simpl.
  set (st1 := BlockDrag.mkState (BlockDrag.position st) (BlockDrag.position st)).
  pose proof (run_keeps_dragStartPos props es st1 Hno) as Hkeep.
  pose proof (run_calls props es st1) as Hcalls.
  destruct (BlockDrag.run props es st1) as [st2 calls2]. simpl in *.
  split; [done|]. intros i p. split; intros Hin.
  - apply elem_of_app in Hin as [Hin|Hin].
    { destruct (BlockDrag.onDragStart props);
        [by apply list_elem_of_singleton in Hin|by apply elem_of_nil in Hin]. }
    exact (Hcalls _ Hno Hin).
  - apply elem_of_app in Hin as [Hin|Hin].
    { destruct (BlockDrag.onDragStart props);
        [by apply list_elem_of_singleton in Hin|by apply elem_of_nil in Hin]. }
    exact (Hcalls _ Hno Hin).
Qed.

Lemma BlockDrag_gesture_positions_witness :
  (BlockDrag.DragStart
     ∉ [ BlockDrag.Drag (mkPoint 3 4); BlockDrag.Render (mkPoint 13 24);
         BlockDrag.DragEnd (mkPoint 5 6) ])
  ∧ (BlockDrag.dragStartPos
       (BlockDrag.run (BlockDrag.mkProps "b1" 3 true true true true)
          [ BlockDrag.DragStart; BlockDrag.Drag (mkPoint 3 4);
            BlockDrag.Render (mkPoint 13 24); BlockDrag.DragEnd (mkPoint 5 6) ]
          (BlockDrag.mount (mkPoint 10 20))).1
     = mkPoint 10 20).
Proof.
  assert (Hno : BlockDrag.DragStart
            ∉ [ BlockDrag.Drag (mkPoint 3 4); BlockDrag.Render (mkPoint 13 24);
                BlockDrag.DragEnd (mkPoint 5 6) ]).
  { intros Hin. repeat (apply elem_of_cons in Hin as [Hin|Hin]; [done|]).
    by apply elem_of_nil in Hin. }
  split; [exact Hno|].
  destruct (BlockDrag_gesture_positions
              (BlockDrag.mkProps "b1" 3 true true true true) _
              (BlockDrag.mount (mkPoint 10 20)) Hno) as [Hstart _].
  exact Hstart.
Defined.

(** X13.  The subtract menu is never offered for a block of value 1 or less:
    over any sequence of events, every [onRightClick] call carries the
    block's id and value, that value is above 1, and the call answers a
    context-menu event at the same point; no [onDragStart] call happens
    without a drag start. *)
Theorem BlockDrag_right_click_guard (props : BlockDrag.Props)
    (es : list BlockDrag.Event) (st : BlockDrag.State) :
  (∀ i v p, BlockDrag.call_onRightClick i v p ∈ (BlockDrag.run props es st).2 →
     i = BlockDrag.id props ∧ v = BlockDrag.value props ∧ 1 < v
     ∧ BlockDrag.ContextMenu p ∈ es)
  ∧ (BlockDrag.value props ≤ 1 →
     ∀ i v p, BlockDrag.call_onRightClick i v p ∉ (BlockDrag.run props es st).2)
  ∧ (BlockDrag.DragStart ∉ es →
     ∀ i, BlockDrag.call_onDragStart i ∉ (BlockDrag.run props es st).2).
Proof.
  assert (Hguard : ∀ es st i v p,
            BlockDrag.call_onRightClick i v p ∈ (BlockDrag.run props es st).2 →
            i = BlockDrag.id props ∧ v = BlockDrag.value props ∧ 1 < v
            ∧ BlockDrag.ContextMenu p ∈ es).
  { clear es st. induction es as [|e es IH]; intros st i v p Hin.
    { simpl in Hin. by apply elem_of_nil in Hin. }
    simpl in Hin.
    destruct (BlockDrag.step props e st) as [st1 calls1] eqn:Hstep.
    specialize (IH st1 i v p).
    destruct (BlockDrag.run props es st1) as [st2 calls2]. simpl in *.
    apply elem_of_app in Hin as [Hin|Hin].
    - destruct e; simpl in Hstep; injection Hstep as <- <-.
      + by apply elem_of_nil in Hin.
      + destruct (BlockDrag.onDragStart props);
          [by apply list_elem_of_singleton in Hin|by apply elem_of_nil in Hin].
      + destruct (BlockDrag.onDrag props);
          [by apply list_elem_of_singleton in Hin|by apply elem_of_nil in Hin].
      + destruct (BlockDrag.onDragEnd props);
          [by apply list_elem_of_singleton in Hin|by apply elem_of_nil in Hin].
      + destruct (Z.ltb_spec 1 (BlockDrag.value props)); simpl in Hin;
          [|by apply elem_of_nil in Hin].
        destruct (BlockDrag.onRightClick props); [|by apply elem_of_nil in Hin].
        apply list_elem_of_singleton in Hin. injection Hin as -> -> ->.
        repeat split; [done|apply list_elem_of_here].
    - destruct (IH Hin) as (? & ? & ? & ?).
      repeat split; [done..|by apply list_elem_of_further]. }
  split; [apply Hguard|]. split.
  - intros Hv i v p Hin. destruct (Hguard _ _ _ _ _ Hin) as (_ & -> & Hlt & _).
    lia.
  - intros Hno i Hin. exact (run_calls props es st _ Hno Hin).
Qed.

Lemma BlockDrag_right_click_guard_witness :
  1 ≤ 1
  ∧ (BlockDrag.run (BlockDrag.mkProps "one" 1 true true true true)
       [ BlockDrag.ContextMenu (mkPoint 5 5) ]
       (BlockDrag.mount (mkPoint 0 0))).2 = []
  ∧ ∀ i v p,
      BlockDrag.call_onRightClick i v p
      ∉ (BlockDrag.run (BlockDrag.mkProps "one" 1 true true true true)
           [ BlockDrag.ContextMenu (mkPoint 5 5) ]
           (BlockDrag.mount (mkPoint 0 0))).2.
Proof.
  split; [lia|]. split; [reflexivity|].
  destruct (BlockDrag_right_click_guard
              (BlockDrag.mkProps "one" 1 true true true true)
              [ BlockDrag.ContextMenu (mkPoint 5 5) ]
              (BlockDrag.mount (mkPoint 0 0))) as (_ & Hnever & _).
  apply Hnever. simpl. lia.
Defined.

(** * How a block above ten is put together *)

Lemma length_NumberBlock (CUBE_SIZE CUBE_GAP : Z) (palette : Z → jsval)
    (value : Z) :
  length (NumberBlock CUBE_SIZE CUBE_GAP palette value) = Z.to_nat value.
Proof.
  unfold NumberBlock. cbv zeta. by rewrite length_imap, length_getCubePositions.
Qed.

Lemma lookup_NumberBlock_color (CUBE_SIZE CUBE_GAP : Z) (palette : Z → jsval)
    (value : Z) (i : nat) :
  Z.of_nat i < value →
  (color <$> NumberBlock CUBE_SIZE CUBE_GAP palette value) !! i
  = Some (getCubeColor palette value (Z.of_nat i)
            (Z.of_nat (length (getCubePositions CUBE_SIZE CUBE_GAP value)))).
Proof.
  intros Hi. rewrite list_lookup_fmap.
  destruct (lookup_lt_is_Some_2
              (NumberBlock CUBE_SIZE CUBE_GAP palette value) i) as [cube Hcube].
  { rewrite length_NumberBlock. lia. }
  rewrite Hcube. simpl. f_equal.
  by destruct (lookup_NumberBlock _ _ _ _ _ _ Hcube)
    as (_ & _ & _ & _ & _ & Hcolor & _).
Qed.

(** X14.  The colours of a block above ten, in rendering order, are
    [floor(value / 10) * 10] white cubes followed by the colours of a whole
    block of value [value mod 10] (none for a multiple of ten): the remainder
    looks like the smaller block, rainbow and gray gradient included. *)
Theorem NumberBlock_colours_tens_then_remainder (CUBE_SIZE CUBE_GAP : Z)
    (palette : Z → jsval) (value : Z) :
  10 < value →
  color <$> NumberBlock CUBE_SIZE CUBE_GAP palette value
  = replicate (Z.to_nat (value `div` 10 * 10)) (JStr "#FFFFFF")
    ++ (color <$> NumberBlock CUBE_SIZE CUBE_GAP palette (value `mod` 10)).
Proof.
  intros Hv.
  pose proof (Z.div_mod value 10 ltac:(lia)) as Hdm.
  pose proof (Z.mod_pos_bound value 10 ltac:(lia)) as Hr.
  set (tens := value `div` 10 * 10) in *.
  apply list_eq. intros i.
  destruct (decide (Z.of_nat i < value)) as [Hi|Hi].
  - rewrite lookup_NumberBlock_color by done.
    destruct (decide (Z.of_nat i < tens)) as [Hlow|Hhigh].
    + rewrite lookup_app_l by (rewrite length_replicate; lia).
      rewrite lookup_replicate_2 by lia. f_equal.
      rewrite getCubeColor_above_ten by done. fold tens.
      destruct (Z.ltb_spec (Z.of_nat i) tens); [done|lia].
    + rewrite lookup_app_r by (rewrite length_replicate; lia).
      rewrite length_replicate.
      rewrite lookup_NumberBlock_color by lia. f_equal.
      replace (Z.of_nat (i - Z.to_nat tens)) with (Z.of_nat i - tens) by lia.
      replace (Z.of_nat i) with (tens + (Z.of_nat i - tens)) at 1 by lia.
      apply getCubeColor_remainder; lia.
  - rewrite (proj2 (lookup_ge_None _ _)).
    2:{ rewrite length_fmap, length_NumberBlock. lia. }
    symmetry. apply lookup_ge_None.
    rewrite length_app, length_replicate, length_fmap, length_NumberBlock. lia.
Qed.

Lemma NumberBlock_colours_tens_then_remainder_witness :
  10 < 17
  ∧ color <$> NumberBlock 40 4 basePaletteColor 17
    = replicate 10 (JStr "#FFFFFF")
      ++ (JStr <$> [ "Red"; "Orange"; "Yellow"; "Green"; "Cyan"; "Indigo";
                     "Violet" ]%string).
Proof.
  split; [lia|].
  rewrite (NumberBlock_colours_tens_then_remainder 40 4 basePaletteColor 17)
    by lia.
  reflexivity.
Defined.

Lemma take_seqZ (a b : Z) :
  0 ≤ a ≤ b → take (Z.to_nat a) (seqZ 0 b) = seqZ 0 a.
Proof.
  intros Hab. replace b with (a + (b - a)) by lia.
  rewrite seqZ_app by lia.
  apply take_app_length'. by rewrite length_seqZ.
Qed.

(** X15.  From ten on, the tens portion of a block is the block of its tens:
    the first [tensCount = floor(value / 10) * 10] offsets of the layout are
    the offsets of the layout of [tensCount], moved down by the rows that the
    remainder adds on top (none for a multiple of ten). *)
Theorem getCubePositions_tens_prefix (CUBE_SIZE CUBE_GAP value : Z) :
  10 ≤ value →
  let tensCount := value `div` 10 * 10 in
  let extraRows := gridRows value - gridRows tensCount in
  0 ≤ extraRows
  ∧ (value `mod` 10 = 0 → extraRows = 0)
  ∧ take (Z.to_nat tensCount) (getCubePositions CUBE_SIZE CUBE_GAP value)
    = (λ p, mkPosition (pos_x p)
                       (pos_y p + extraRows * (CUBE_SIZE + CUBE_GAP)))
      <$> getCubePositions CUBE_SIZE CUBE_GAP tensCount.
Proof.
  intros Hv tensCount extraRows. subst extraRows.
  pose proof (Z.div_mod value 10 ltac:(lia)) as Hdm.
  pose proof (Z.mod_pos_bound value 10 ltac:(lia)) as Hr.
  assert (Htens : 10 ≤ tensCount ≤ value).
  { subst tensCount.
    assert (1 ≤ value `div` 10) by (apply Z.div_le_lower_bound; lia). lia. }
  assert (Hcols : gridCols tensCount = gridCols value).
  { unfold gridCols, layoutCols, Math_floor_div.
    destruct (Z.eqb_spec value 4); [lia|]. destruct (Z.eqb_spec value 7); [lia|].
    destruct (Z.eqb_spec value 9); [lia|]. destruct (Z.leb_spec value 5); [lia|].
    destruct (Z.eqb_spec tensCount 4); [lia|].
    destruct (Z.eqb_spec tensCount 7); [lia|].
    destruct (Z.eqb_spec tensCount 9); [lia|].
    destruct (Z.leb_spec tensCount 5); [lia|].
    subst tensCount. rewrite Z.div_mul by lia.
    destruct (Z.leb_spec 30 value), (Z.leb_spec 30 (value `div` 10 * 10));
      lia. }
  pose proof (gridCols_pos value) as Hc.
  destruct (gridRows_spec value ltac:(lia)) as [Hlo Hhi].
  destruct (gridRows_spec tensCount ltac:(lia)) as [Hlo' Hhi'].
  rewrite Hcols in Hlo', Hhi'.
  split; [nia|]. split.
  { intros H0. assert (tensCount = value) as Heq by (subst tensCount; lia).
    rewrite Heq. lia. }
  rewrite !getCubePositions_grid. rewrite <- fmap_take.
  rewrite take_seqZ by lia. rewrite <- list_fmap_compose.
  apply fmap_seqZ_ext. intros i Hi. unfold gridCell. simpl.
  rewrite Hcols. f_equal. lia.
Qed.

Lemma getCubePositions_tens_prefix_witness :
  10 ≤ 23
  ∧ take 20 (getCubePositions 40 4 23)
    = (λ p, mkPosition (pos_x p) (pos_y p + 2 * (40 + 4)))
      <$> getCubePositions 40 4 20.
Proof.
  split; [lia|].
  destruct (getCubePositions_tens_prefix 40 4 23) as (_ & _ & Hprefix); [lia|].
  exact Hprefix.
Defined.
